(** * WikipediaGameBot: the link fetcher and the exploration loop of [main.py]

    A shallow embedding of [get_links_from_page], [generate_response],
    [choose_next_link] and [explore_path].

    - Python [str] values are Rocq strings holding the UTF-8 bytes of the text.
      [startswith], [replace(" ", "_")], [join] and [+] agree on code points and
      on UTF-8 bytes; [strip] and [lower] do not, so they are taken from the
      runtime ([PyRuntime]) and every result holds for any choice of them.
    - the [set] of titles is the list of the titles added to it, each once, in
      the order they came ([pyset]); the order in which [list(links)] lists
      them is the runtime's ([set_iter]) and may depend on that history.
    - the dictionaries [cache] and [params] are [gmap]s.
    - the Wikipedia endpoint and the Gemini model are a world [W] with one
      transition per call ([World]).
    - the coroutines run in one task, each [await] completing before the next
      statement: a state and exception monad [M] over the world, the trace of
      observable events, the semaphore counter and the cache.
    - a reply of the endpoint is its status and the decoded body in the shape
      the code reads (pages, their links, the continuation); [max_iterations]
      is a natural number; opening and closing the [ClientSession] leaves no
      event. The outer [while True] of the fetch has no bound of its own: it
      runs on [fuel], and a run that would not end is the outcome [NoReturn]. *)

From Stdlib Require Import ZArith String Ascii List Lia.
From stdpp Require Import base option list gmap strings pretty.

Local Open Scope string_scope.
Local Open Scope list_scope.

(** ** Strings *)

Module Str.

(** [s.startswith(p)] *)
Definition startswith (s p : string) : bool := String.prefix p s.

(** [s.replace(" ", "_")] *)
Fixpoint replace_space (s : string) : string :=
  match s with
  | EmptyString => EmptyString
  | String c s' =>
      String (if Ascii.eqb c " "%char then "_"%char else c) (replace_space s')
  end.

(** [sep.join(l)] *)
Definition join (sep : string) (l : list string) : string := String.concat sep l.

(** the line feed of ["\n"] *)
Definition nl : string := String (ascii_of_nat 10) EmptyString.

End Str.

(** ** Sets of strings *)

(** A [set] that is only ever added to: its elements, in the order in which
    they were first added. *)
Definition pyset : Type := list string.

(** [s.add(x)] *)
Definition set_add (x : string) (s : pyset) : pyset :=
  if decide (x ∈ s) then s else s ++ [x].

(** ** The Python runtime: [str.strip], [str.lower] and the iteration order of a set *)

Class PyRuntime := {
  str_strip : string → string;
  str_lower : string → string;
  set_iter : pyset → list string;
  set_iter_perm : ∀ s, NoDup s → set_iter s ≡ₚ s
}.

(** ** The remote services *)

(** The decoded body of a query reply: [data.get("query", {}).get("pages", {})]
    as the list of its items (page id, and the titles under ["links"] when the
    key is there), and [data["continue"]] when the key is there. *)
Record api_data := {
  query_pages : list (string * option (list string));
  continue_params : option (gmap string string)
}.

(** What [session.get] hands back: the status, and the body that
    [response.json()] decodes ([None]: decoding raises). *)
Record http_response := {
  status : Z;
  json_body : option api_data
}.

Inductive exn :=
| MaxRetriesExceeded (page_title : string)  (* Exception("Max retries exceeded for ...") *)
| ClientResponseError (status : Z)          (* response.raise_for_status() *)
| JsonDecodeError                            (* response.json() *)
| ClientConnectionError                      (* session.get itself fails *)
| ValueError                                 (* list.remove(x): x not in list *)
| GenerationError (reason : string).        (* the Gemini client *)

(** A reply of [model.generate_content_async]: the call raises, or it returns a
    response whose [.text] raises or is a string. *)
Inductive gen_reply :=
| CallRaises (e : exn)
| TextRaises (e : exn)
| Text (s : string).

Class World (W : Type) := {
  http_get : W → gmap string string → (exn + http_response) * W;
  generate_content : W → string → gen_reply * W
}.

(** ** Observable events of a run, in order *)

Inductive event :=
| EvPrint (line : string)                    (* print(...) *)
| EvAcquire                                  (* async with semaphore: entered *)
| EvRelease                                  (* async with semaphore: left *)
| EvRequest (params : gmap string string)    (* session.get(URL, params=params) issued *)
| EvResponse (status : Z)                    (* the response arrived *)
| EvExchangeEnd                              (* async with session.get(...): left *)
| EvSleep (seconds : nat)                    (* await asyncio.sleep(seconds) *)
| EvGenerate (prompt : string)               (* model.generate_content_async([prompt]) *)
| EvTimeSleep (seconds : nat).               (* time.sleep(seconds) *)

(** ** The monad of a run *)

Inductive outcome (A : Type) :=
| Ok (a : A)
| Raise (e : exn)
| NoReturn.   (* the call never returns: pagination without end, or a wait on
                 the semaphore that nothing ends *)
Arguments Ok {A} a.
Arguments Raise {A} e.
Arguments NoReturn {A}.

Record run_state (W : Type) := {
  world : W;
  trace : list event;
  sem_value : nat;                       (* the counter of asyncio.Semaphore *)
  cache : gmap string (list string)      (* the dict created by explore_path *)
}.
Arguments world {W} _.
Arguments trace {W} _.
Arguments sem_value {W} _.
Arguments cache {W} _.

Definition M (W A : Type) : Type := run_state W → outcome A * run_state W.

Definition ret {W A} (a : A) : M W A := fun st => (Ok a, st).

Definition bind {W A B} (m : M W A) (k : A → M W B) : M W B := fun st =>
  match m st with
  | (Ok a, st') => k a st'
  | (Raise e, st') => (Raise e, st')
  | (NoReturn, st') => (NoReturn, st')
  end.

Definition raise {W A} (e : exn) : M W A := fun st => (Raise e, st).

Definition no_return {W A} : M W A := fun st => (NoReturn, st).

(** [body] then [cleanup], also when [body] raises: the exit of a [with] block. *)
Definition finally {W A} (body : M W A) (cleanup : M W unit) : M W A := fun st =>
  match body st with
  | (Ok a, st') =>
      match cleanup st' with
      | (Ok _, st'') => (Ok a, st'')
      | (Raise e, st'') => (Raise e, st'')
      | (NoReturn, st'') => (NoReturn, st'')
      end
  | (Raise e, st') =>
      match cleanup st' with
      | (Ok _, st'') => (Raise e, st'')
      | (Raise e', st'') => (Raise e', st'')
      | (NoReturn, st'') => (NoReturn, st'')
      end
  | (NoReturn, st') => (NoReturn, st')
  end.

Declare Scope run_scope.
Delimit Scope run_scope with run.
Notation "'let*' x ':=' m 'in' k" := (bind m (fun x => k))
  (at level 10, x name, m at level 100, k at level 200) : run_scope.
Notation "'do' m 'then' k" := (bind m (fun _ => k))
  (at level 10, m at level 100, k at level 200) : run_scope.

Definition emit {W} (e : event) : M W unit := fun st =>
  (Ok tt, {| world := world st; trace := trace st ++ [e];
             sem_value := sem_value st; cache := cache st |}).

Definition print {W} (line : string) : M W unit := emit (EvPrint line).

(** [semaphore.acquire()]: with the counter at zero the task waits for a
    release, and no other task holds this semaphore. *)
Definition sem_acquire {W} : M W unit := fun st =>
  match sem_value st with
  | O => (NoReturn, st)
  | S n => (Ok tt, {| world := world st; trace := trace st ++ [EvAcquire];
                      sem_value := n; cache := cache st |})
  end.

Definition sem_release {W} : M W unit := fun st =>
  (Ok tt, {| world := world st; trace := trace st ++ [EvRelease];
             sem_value := S (sem_value st); cache := cache st |}).

(** [async with semaphore: body] *)
Definition with_semaphore {W A} (body : M W A) : M W A :=
  (do sem_acquire then finally body sem_release)%run.

Definition cache_lookup {W} (k : string) : M W (option (list string)) := fun st =>
  (Ok (cache st !! k), st).

Definition cache_store {W} (k : string) (v : list string) : M W unit := fun st =>
  (Ok tt, {| world := world st; trace := trace st;
             sem_value := sem_value st; cache := <[k := v]> (cache st) |}).

(** ** [get_links_from_page] *)

Definition WIKIPEDIA_API_URL : string := "https://en.wikipedia.org/w/api.php".
Definition MAX_RETRIES : nat := 5.

(** The condition of line 80: the title starts with one of the twelve prefixes. *)
Definition denylist : list string :=
  ["Help:"; "Template:"; "Wikipedia:"; "Catégorie:"; "Category:"; "Portail:";
   "Aide:"; "Modèle:"; "Discussion:"; "Fichier:"; "File:"; "Wikipédia:"].

Definition denied (link : string) : bool :=
  Str.startswith link "Help:" || Str.startswith link "Template:"
  || Str.startswith link "Wikipedia:" || Str.startswith link "Catégorie:"
  || Str.startswith link "Category:" || Str.startswith link "Portail:"
  || Str.startswith link "Aide:" || Str.startswith link "Modèle:"
  || Str.startswith link "Discussion:" || Str.startswith link "Fichier:"
  || Str.startswith link "File:" || Str.startswith link "Wikipédia:".

(** The titles the filter leaves. *)
Definition kept (link : string) : bool := negb (denied link).

(** [links.remove(x)]: drops the first occurrence; [None] is the [ValueError]
    of a missing [x]. *)
Fixpoint list_remove (x : string) (links : list string) : option (list string) :=
  match links with
  | [] => None
  | y :: links' =>
      if decide (y = x) then Some links'
      else match list_remove x links' with
           | Some r => Some (y :: r)
           | None => None
           end
  end.

(** [for link in links[:]: if <denied>: links.remove(link)]: [copy] is what is
    left of the slice, [links] the list being changed. *)
Fixpoint remove_denied (copy : list string) (links : list string) : option (list string) :=
  match copy with
  | [] => Some links
  | link :: copy' =>
      if denied link then
        match list_remove link links with
        | Some links' => remove_denied copy' links'
        | None => None
        end
      else remove_denied copy' links
  end.

(** The loops over [pages.items()] and [page_data["links"]]: [links.add(title)]. *)
Definition add_links (links : pyset) (pages : list (string * option (list string)))
  : pyset :=
  fold_left (fun acc page =>
               match page.2 with
               | Some titles => fold_left (fun acc' title => set_add title acc') titles acc
               | None => acc
               end) pages links.

Definition initial_params (page_title : string) : gmap string string :=
  <["pllimit" := "max"]> (<["prop" := "links"]> (<["titles" := page_title]>
    (<["format" := "json"]> (<["action" := "query"]> ∅)))).

Section Fetcher.
Context {W : Type} {services : World W} {python : PyRuntime}.

Local Open Scope run_scope.

(** [session.get(WIKIPEDIA_API_URL, params=params)] *)
Definition session_get (params : gmap string string) : M W http_response := fun st =>
  let st1 := {| world := world st; trace := trace st ++ [EvRequest params];
                sem_value := sem_value st; cache := cache st |} in
  match http_get (world st) params with
  | (inl e, w') =>
      (Raise e, {| world := w'; trace := trace st1;
                   sem_value := sem_value st; cache := cache st |})
  | (inr response, w') =>
      (Ok response, {| world := w'; trace := trace st1 ++ [EvResponse (status response)];
                       sem_value := sem_value st; cache := cache st |})
  end.

(** [async with session.get(...) as response: body] *)
Definition with_session_get {A} (params : gmap string string)
    (body : http_response → M W A) : M W A :=
  finally (let* response := session_get params in body response) (emit EvExchangeEnd).

(** [response.raise_for_status()]: raises from status 400 on. *)
Definition raise_for_status (response : http_response) : M W unit :=
  if (400 <=? status response)%Z then raise (ClientResponseError (status response))
  else ret tt.

(** Lines 59-63: [await response.json()], the message and the re-raise. *)
Definition response_json (page_title : string) (response : http_response) : M W api_data :=
  match json_body response with
  | Some data => ret data
  | None =>
      do print ("Error decoding JSON for page: " +:+ page_title) then
      raise JsonDecodeError
  end.

(** Lines 48-64, one pass of the inner [while]: [inl data] is the [break],
    [inr retry_count] the [continue] with the counter it leaves. *)
Definition exchange (page_title : string) (params : gmap string string)
    (retry_count : nat) : M W (api_data + nat) :=
  with_semaphore (
    with_session_get params (fun response =>
      if (status response =? 429)%Z then
        let retry_count := S retry_count in
        let wait_time := (2 ^ retry_count)%nat in
        do print ("Received 429 for '" +:+ page_title +:+ "'. Retrying in "
                  +:+ pretty wait_time +:+ " seconds...") then
        do emit (EvSleep wait_time) then
        ret (inr retry_count)
      else
        do (if negb (status response =? 200)%Z then raise_for_status response
            else ret tt) then
        let* data := response_json page_title response in
        ret (inl data))).

(** Lines 47-66, [while retry_count < MAX_RETRIES: ... else: raise]. [steps]
    bounds the passes; [MAX_RETRIES - retry_count] of them are enough. *)
Fixpoint retry_loop (steps : nat) (page_title : string) (params : gmap string string)
    (retry_count : nat) : M W api_data :=
  if (retry_count <? MAX_RETRIES)%nat then
    match steps with
    | O => no_return
    | S steps' =>
        let* r := exchange page_title params retry_count in
        match r with
        | inl data => ret data
        | inr retry_count' => retry_loop steps' page_title params retry_count'
        end
    end
  else raise (MaxRetriesExceeded page_title).

(** Lines 45-77, the outer [while True]; [fuel] bounds the number of pages. *)
Fixpoint paginate (fuel : nat) (page_title : string) (links : pyset)
    (params : gmap string string) : M W pyset :=
  match fuel with
  | O => no_return
  | S fuel' =>
      let* data := retry_loop MAX_RETRIES page_title params 0 in
      let links := add_links links (query_pages data) in
      match continue_params data with
      | Some c => paginate fuel' page_title links (c ∪ params)
      | None => ret links
      end
  end.

Definition get_links_from_page (fuel : nat) (page_title : string) : M W (list string) :=
  let* hit := cache_lookup page_title in
  match hit with
  | Some links => ret links
  | None =>
      let* links := paginate fuel page_title [] (initial_params page_title) in
      let links := set_iter links in
      match remove_denied links links with
      | Some links =>
          do cache_store page_title links then
          ret links
      | None => raise ValueError
      end
  end.

End Fetcher.

(** ** [generate_response] and [choose_next_link] *)

Section Oracle.
Context {W : Type} {services : World W} {python : PyRuntime}.

Local Open Scope run_scope.

(** The model is built with temperature 0, the four safety thresholds at
    [BLOCK_NONE] and a fixed system instruction: constants of every call,
    part of what [generate_content] stands for. *)
Definition generate_response (user_input : string) : M W string := fun st =>
  let t1 := trace st ++ [EvGenerate user_input] in
  match generate_content (world st) user_input with
  | (CallRaises e, w') =>
      (Raise e, {| world := w'; trace := t1;
                   sem_value := sem_value st; cache := cache st |})
  | (TextRaises e, w') =>
      (Raise e, {| world := w'; trace := t1 ++ [EvTimeSleep 2];
                   sem_value := sem_value st; cache := cache st |})
  | (Text s, w') =>
      (Ok s, {| world := w'; trace := t1 ++ [EvTimeSleep 2];
                sem_value := sem_value st; cache := cache st |})
  end.

(** Lines 125-134: the prompt. *)
Definition build_prompt (current_page target_page : string)
    (visited available_links : list string) : string :=
  let prompt := "Current Wikipedia page: '" +:+ current_page +:+ "'" +:+ Str.nl in
  let prompt := prompt +:+ "Target Wikipedia page: '" +:+ target_page +:+ "'" +:+ Str.nl in
  let prompt := prompt +:+ "Visited pages so far: " +:+ Str.join ", " visited +:+ Str.nl in
  let prompt := prompt +:+ "Available links on the current page:" +:+ Str.nl in
  let prompt :=
    fold_left (fun prompt link => prompt +:+ "- " +:+ link +:+ Str.nl)
              available_links prompt in
  prompt +:+ Str.nl
    +:+ "From the list above, please choose exactly one link (the title) that is the best next step "
    +:+ "to reach the target page. Respond with only the exact title.".

Definition choose_next_link (current_page target_page : string)
    (visited available_links : list string) : M W string :=
  let prompt := build_prompt current_page target_page visited available_links in
  do print (Str.nl +:+ "--- Prompting Gemini ---") then
  do print prompt then
  let* chosen_link := generate_response prompt in
  let chosen_link := str_strip chosen_link in
  do print ("Gemini response: " +:+ chosen_link) then
  ret chosen_link.

End Oracle.

(** ** [explore_path] *)

(** The variables of the loop. *)
Record locals := {
  current_page : string;
  path : list string;
  visited : list string
}.

(** How a pass of the loop body ends: [return path], or on to the next pass
    ([continue], or the end of the body). *)
Inductive flow :=
| Return (result : list string)
| Next (vars : locals).

Section Explorer.
Context {W : Type} {services : World W} {python : PyRuntime}.

Local Open Scope run_scope.

(** [s.strip().lower().replace(" ", "_")] *)
Definition normalize (s : string) : string :=
  Str.replace_space (str_lower (str_strip s)).

(** Lines 162-183, the body of the [for] at index [iteration]. *)
Definition explore_iteration (fuel : nat) (target_page : string) (iteration : nat)
    (vars : locals) : M W flow :=
  if decide (normalize (current_page vars) = normalize target_page) then
    do print (Str.nl +:+ "Target page reached!") then
    ret (Return (path vars))
  else
    do print (Str.nl +:+ "Iteration " +:+ pretty (iteration + 1)%nat
              +:+ ": Current page: '" +:+ current_page vars +:+ "'") then
    let* available_links := get_links_from_page fuel (current_page vars) in
    match available_links with
    | [] =>
        do print ("No available links found on page '" +:+ current_page vars
                  +:+ "'. Stopping search.") then
        ret (Next vars)
    | first_link :: _ =>
        let* chosen_link :=
          choose_next_link (current_page vars) target_page (visited vars) available_links in
        let* chosen_link :=
          (if decide (chosen_link ∈ available_links) then ret chosen_link
           else
             do print ("Chosen link '" +:+ chosen_link +:+ "' not in available links.") then
             do print ("Defaulting to first available link: '" +:+ first_link +:+ "'.") then
             ret first_link) in
        do print ("Moving to: " +:+ chosen_link) then
        ret (Next {| current_page := chosen_link;
                     path := path vars ++ [chosen_link];
                     visited := visited vars ++ [chosen_link] |})
    end.

(** Lines 161-186, [for iteration in range(max_iterations)] from index
    [iteration] with [remaining] passes left, and the lines after the loop. *)
Fixpoint explore_loop (fuel : nat) (target_page : string) (remaining iteration : nat)
    (vars : locals) : M W (list string) :=
  match remaining with
  | O =>
      do print (Str.nl +:+ "Max iterations reached or target not found.") then
      ret (path vars)
  | S remaining' =>
      let* f := explore_iteration fuel target_page iteration vars in
      match f with
      | Return result => ret result
      | Next vars' => explore_loop fuel target_page remaining' (S iteration) vars'
      end
  end.

(** The state at line 159: an empty cache, [asyncio.Semaphore(5)]. *)
Definition initial_state (w : W) : run_state W :=
  {| world := w; trace := []; sem_value := 5; cache := ∅ |}.

Definition initial_locals (start_page : string) : locals :=
  {| current_page := start_page; path := [start_page]; visited := [start_page] |}.

(** [explore_path(start_page, target_page, max_iterations)] in the world [w];
    [fuel] bounds the pages of one fetch. *)
Definition explore_path (fuel : nat) (start_page target_page : string)
    (max_iterations : nat) (w : W) : outcome (list string) * run_state W :=
  explore_loop fuel target_page max_iterations 0 (initial_locals start_page)
               (initial_state w).

End Explorer.

(** ** Reading a trace *)

Module Trace.

Definition is_request (e : event) : bool :=
  match e with EvRequest _ => true | _ => false end.
Definition is_exchange_end (e : event) : bool :=
  match e with EvExchangeEnd => true | _ => false end.
Definition is_acquire (e : event) : bool :=
  match e with EvAcquire => true | _ => false end.
Definition is_release (e : event) : bool :=
  match e with EvRelease => true | _ => false end.
Definition is_generate (e : event) : bool :=
  match e with EvGenerate _ => true | _ => false end.
Definition is_print (e : event) : bool :=
  match e with EvPrint _ => true | _ => false end.

Definition count (P : event → bool) (t : list event) : nat :=
  length (List.filter P t).

(** Requests sent to the link source. *)
Definition requests (t : list event) : nat := count is_request t.

(** Calls of the Gemini model. *)
Definition oracle_calls (t : list event) : nat := count is_generate t.

(** The seconds of the successive [asyncio.sleep] calls. *)
Definition sleeps (t : list event) : list nat :=
  omap (fun e => match e with EvSleep n => Some n | _ => None end) t.

(** Permits of the semaphore held after [t]: acquisitions less releases. *)
Definition permits_held (t : list event) : Z :=
  (Z.of_nat (count is_acquire t) - Z.of_nat (count is_release t))%Z.

(** Exchanges in flight after [t]: requests issued less exchanges left. *)
Definition in_flight (t : list event) : Z :=
  (Z.of_nat (count is_request t) - Z.of_nat (count is_exchange_end t))%Z.

(** Where the task stands with respect to the semaphore and the session. *)
Inductive phase := Idle | Holding | Flying.

(** The bracketing acquire, request, end of exchange, release; events of
    neither the semaphore nor the session keep the phase. *)
Definition step (p : phase) (e : event) : option phase :=
  match e, p with
  | EvAcquire, Idle => Some Holding
  | EvRequest _, Holding => Some Flying
  | EvExchangeEnd, Flying => Some Holding
  | EvRelease, Holding => Some Idle
  | (EvAcquire | EvRequest _ | EvExchangeEnd | EvRelease), _ => None
  | EvResponse _, Flying => Some Flying
  | EvResponse _, _ => None
  | _, _ => Some p
  end.

Fixpoint scan (p : phase) (t : list event) : option phase :=
  match t with
  | [] => Some p
  | e :: t' => match step p e with Some q => scan q t' | None => None end
  end.

Definition held_in (p : phase) : Z :=
  match p with Idle => 0 | Holding | Flying => 1 end.

Definition flying_in (p : phase) : Z :=
  match p with Flying => 1 | Idle | Holding => 0 end.

End Trace.

(** ** Several tasks on one semaphore

    [explore_path] runs its fetches in one task. Were its semaphore shared by
    several tasks running fetches on the event loop, a configuration would be
    the counter of the semaphore and where each task stands. *)

Module Pool.

Record config := {
permits : nat;
tasks : list Trace.phase
}.

(** The counter after an event of a task. *)
Definition after (e : event) (n : nat) : nat :=
match e with
| EvAcquire => pred n
| EvRelease => S n
| _ => n
end.

(** One task performs one event of its bracket; [semaphore.acquire()] goes
  through only with the counter above zero. *)
Inductive step : config → config → Prop :=
| step_task c i p e q :
  tasks c !! i = Some p →
  Trace.step p e = Some q →
  (e = EvAcquire → permits c ≠ 0%nat) →
  step c {| permits := after e (permits c); tasks := <[i := q]> (tasks c) |}.

(** [n] tasks at rest and a semaphore of [k] permits. *)
Definition start (k n : nat) : config :=
{| permits := k; tasks := replicate n Trace.Idle |}.

Definition held (p : Trace.phase) : nat :=
match p with Trace.Idle => 0 | Trace.Holding | Trace.Flying => 1 end.

Definition flying (p : Trace.phase) : nat :=
match p with Trace.Flying => 1 | Trace.Idle | Trace.Holding => 0 end.

(** Permits held, and exchanges in flight, over all tasks. *)
Definition permits_held (c : config) : nat := sum_list (held <$> tasks c).
Definition in_flight (c : config) : nat := sum_list (flying <$> tasks c).

End Pool.

(** ** Statements about the link source *)

Section Throttling.
Context {W : Type} {services : World W}.

(** The source answers [k] requests for [params] in a row with status 429;
    the world it is left in. *)
Fixpoint throttles (k : nat) (w : W) (params : gmap string string) : option W :=
  match k with
  | O => Some w
  | S k' =>
      match http_get w params with
      | (inr response, w') =>
          if (status response =? 429)%Z then throttles k' w' params else None
      | (inl _, _) => None
      end
  end.

(** What the [attempt]-th throttled exchange of a request leaves in the trace. *)
Definition throttled_exchange (page_title : string) (params : gmap string string)
    (attempt : nat) : list event :=
  [EvAcquire; EvRequest params; EvResponse 429;
   EvPrint ("Received 429 for '" +:+ page_title +:+ "'. Retrying in "
            +:+ pretty (2 ^ attempt)%nat +:+ " seconds...");
   EvSleep (2 ^ attempt); EvExchangeEnd; EvRelease].

(** What an exchange answered with status 200 and a decodable body leaves. *)
Definition successful_exchange (params : gmap string string) : list event :=
  [EvAcquire; EvRequest params; EvResponse 200; EvExchangeEnd; EvRelease].

End Throttling.

Section Passes.
Context {W : Type} {services : World W} {python : PyRuntime}.

(** [n] passes of the loop body from index [iteration], none of which
    returns, raises or hangs: the variables and the state they leave. *)
Fixpoint run_passes (fuel : nat) (target_page : string) (n iteration : nat)
    (vars : locals) (st : run_state W) : option (locals * run_state W) :=
  match n with
  | O => Some (vars, st)
  | S n' =>
      match explore_iteration fuel target_page iteration vars st with
      | (Ok (Next vars'), st') => run_passes fuel target_page n' (S iteration) vars' st'
      | _ => None
      end
  end.

(** The first line a pass prints once the target test has failed. *)
Definition pass_banner (iteration : nat) (vars : locals) : string :=
  Str.nl +:+ "Iteration " +:+ pretty (iteration + 1)%nat
    +:+ ": Current page: '" +:+ current_page vars +:+ "'".

Definition stall_notice (vars : locals) : string :=
  "No available links found on page '" +:+ current_page vars +:+ "'. Stopping search.".

Definition budget_notice : string :=
  Str.nl +:+ "Max iterations reached or target not found.".

(** The state with one more line printed. *)
Definition printing (line : string) (st : run_state W) : run_state W :=
  {| world := world st; trace := trace st ++ [EvPrint line];
     sem_value := sem_value st; cache := cache st |}.

(** [st'] comes after [st] in a run, between two exchanges: the semaphore is
    back at its value, the cache has kept its entries, and the events added
    are whole acquire, request, end, release brackets. *)
Definition evolves (st st' : run_state W) : Prop :=
  sem_value st' = sem_value st
  ∧ cache st ⊆ cache st'
  ∧ ∃ evs, trace st' = trace st ++ evs ∧ Trace.scan Trace.Idle evs = Some Trace.Idle.

(** The same, with the cache left as it was. *)
Definition quiet (st st' : run_state W) : Prop :=
  sem_value st' = sem_value st
  ∧ cache st' = cache st
  ∧ ∃ evs, trace st' = trace st ++ evs ∧ Trace.scan Trace.Idle evs = Some Trace.Idle.

(** Each element of [p] after the first is in the list that the cache [c]
    holds for the element before it. *)
Definition follows_links (c : gmap string (list string)) (p : list string) : Prop :=
  ∀ i x y, p !! i = Some x → p !! S i = Some y →
           ∃ links, c !! x = Some links ∧ y ∈ links.

(** A cache all of whose lists went through the filter of line 80. *)
Definition cache_filtered (c : gmap string (list string)) : Prop :=
  ∀ k links, c !! k = Some links → Forall (fun link => denied link = false) links.

End Passes.

(** The reserved prefixes as the specification words them: the
    administrative, talk, template, category, file, portal and help
    namespaces, each in its English and in its French form. *)
Definition namespaces_in_both_forms : list string :=
  ["Wikipedia:"; "Wikipédia:"; "Talk:"; "Discussion:"; "Template:"; "Modèle:";
   "Category:"; "Catégorie:"; "File:"; "Fichier:"; "Portal:"; "Portail:";
   "Help:"; "Aide:"].

(** ** A runtime and a world to run the definitions in *)

Module Sample.

Definition is_space (c : ascii) : bool :=
  let n := nat_of_ascii c in
  ((9 <=? n) && (n <=? 13) || (28 <=? n) && (n <=? 32))%nat.

Definition lower_char (c : ascii) : ascii :=
  let n := nat_of_ascii c in
  if ((65 <=? n) && (n <=? 90))%nat then ascii_of_nat (n + 32) else c.

Fixpoint lstrip (s : string) : string :=
  match s with
  | EmptyString => EmptyString
  | String c s' => if is_space c then lstrip s' else s
  end.

Fixpoint rstrip (s : string) : string :=
  match s with
  | EmptyString => EmptyString
  | String c s' =>
      match rstrip s' with
      | EmptyString => if is_space c then EmptyString else String c EmptyString
      | r => String c r
      end
  end.

Fixpoint lower (s : string) : string :=
  match s with
  | EmptyString => EmptyString
  | String c s' => String (lower_char c) (lower s')
  end.

(** [strip] and [lower] on ASCII text, sets listed last added first. *)
#[export] Instance runtime : PyRuntime := {|
  str_strip s := rstrip (lstrip s);
  str_lower := lower;
  set_iter := reverse;
  set_iter_perm s _ := reverse_Permutation s
|}.

(** A world that plays back two scripts: the replies of the link source and
    those of the model, one per call whatever is asked. *)
Record script := {
  replies : list (exn + http_response);
  answers : list gen_reply
}.

#[export] Instance script_world : World script := {|
  http_get s _ :=
    match replies s with
    | [] => (inl ClientConnectionError, s)
    | r :: rs => (r, {| replies := rs; answers := answers s |})
    end;
  generate_content s _ :=
    match answers s with
    | [] => (CallRaises (GenerationError "no answer"), s)
    | a :: rest => (a, {| replies := replies s; answers := rest |})
    end
|}.

Definition page_reply (titles : list string) : exn + http_response :=
  inr {| status := 200;
         json_body := Some {| query_pages := [("1", Some titles)];
                              continue_params := None |} |}.

Definition throttled_reply : exn + http_response :=
  inr {| status := 429; json_body := None |}.

(** The page "Pizza" answers after one throttled attempt, the page
    "Tomato" has no link; the model answers "Tomato" with blanks around. *)
Definition pizza_world : script :=
  {| replies := [throttled_reply;
                 page_reply ["Talk:Pizza"; "Help:Contents"; "Tomato"; "Catégorie:Cuisine";
                             "Portal:Food"];
                 page_reply []];
     answers := [Text " Tomato "] |}.

(** The model answers a title that is not among the links. *)
Definition stray_world : script :=
  {| replies := [page_reply ["Tomato"; "Cheese"]]; answers := [Text "Bread"] |}.

(** The start page has no link. *)
Definition dead_end_world : script :=
  {| replies := [page_reply []]; answers := [] |}.

(** [k] throttled answers, then the links. *)
Definition throttled_world (k : nat) : script :=
  {| replies := replicate k throttled_reply ++ [page_reply ["Tomato"]]; answers := [] |}.

Definition pizza_vars : locals := initial_locals "Pizza".

(** The states that runs in these worlds end in. *)
Definition pizza_final : run_state script :=
  Eval vm_compute in (explore_path 3 "Pizza" "Chocolate" 4 pizza_world).2.

Definition pizza_fetched : run_state script :=
  Eval vm_compute in (get_links_from_page 3 "Pizza" (initial_state pizza_world)).2.

Definition stray_fetched : run_state script :=
  Eval vm_compute in
    (get_links_from_page 3 "Pizza"
       (printing (pass_banner 0 pizza_vars) (initial_state stray_world))).2.

Definition stray_answered : run_state script :=
  Eval vm_compute in
    (choose_next_link "Pizza" "Chocolate" ["Pizza"] ["Cheese"; "Tomato"] stray_fetched).2.

Definition dead_end_fetched : run_state script :=
  Eval vm_compute in
    (get_links_from_page 3 "Pizza"
       (printing (pass_banner 0 pizza_vars) (initial_state dead_end_world))).2.

(** Before the lines after the loop are printed. *)
Definition dead_end_passed : run_state script :=
  Eval vm_compute in
    match run_passes 3 "Chocolate" 3 0 pizza_vars (initial_state dead_end_world) with
    | Some (_, st) => st
    | None => initial_state dead_end_world
    end.

End Sample.


(** ** Fetches of several pages *)

Section Serving.
Context {W : Type} {services : World W}.

(** The source answers the request [params] with [k] replies of status 429
    and then with status 200 and the body [data], leaving the world [w']. *)
Definition answers_after (k : nat) (w : W) (params : gmap string string)
    (data : api_data) (w' : W) : Prop :=
  ∃ w1 response,
    throttles k w params = Some w1
    ∧ http_get w1 params = (inr response, w')
    ∧ status response = 200%Z
    ∧ json_body response = Some data.

(** The source serves the pages of a fetch one after the other, each after
    fewer than [MAX_RETRIES] throttled replies: every body but the last has
    a continuation, which is merged into the parameters of the next request. *)
Fixpoint serves (w : W) (params : gmap string string)
    (pages : list (nat * api_data)) (w' : W) : Prop :=
  match pages with
  | [] => False
  | page :: rest =>
      (page.1 < MAX_RETRIES)%nat
      ∧ ∃ w1, answers_after page.1 w params page.2 w1
              ∧ match continue_params page.2 with
                | Some c => serves w1 (c ∪ params) rest w'
                | None => rest = [] ∧ w1 = w'
                end
  end.

(** The set after the titles of all the pages were added. *)
Definition served_links (links : pyset) (pages : list (nat * api_data)) : pyset :=
  fold_left (fun acc page => add_links acc (query_pages page.2)) pages links.

(** The requests that serving the pages takes, and the sleeps on the way. *)
Definition served_requests (pages : list (nat * api_data)) : nat :=
  sum_list ((fun page => S page.1) <$> pages).

Definition served_sleeps (pages : list (nat * api_data)) : list nat :=
  flat_map (fun page => map (Nat.pow 2) (seq 1 page.1)) pages.

(** The title is listed under ["links"] in one of the pages of a body. *)
Definition listed (title : string) (data : api_data) : Prop :=
  ∃ page_id titles, (page_id, Some titles) ∈ query_pages data ∧ title ∈ titles.

End Serving.

(** ** Where the sleeps and the calls of the model come *)

Module Placement.

(** The bracketing of [Trace.step], and more: a sleep of the backoff is
  accepted only while the exchange is open, and a call of the model and the
  [time.sleep] after it only outside of any exchange, with no permit held. *)
Definition step (p : Trace.phase) (e : event) : option Trace.phase :=
match e with
| EvSleep _ =>
    match p with Trace.Flying => Some Trace.Flying | _ => None end
| EvGenerate _ | EvTimeSleep _ =>
    match p with Trace.Idle => Some Trace.Idle | _ => None end
| _ => Trace.step p e
end.

Fixpoint scan (p : Trace.phase) (t : list event) : option Trace.phase :=
match t with
| [] => Some p
| e :: t' => match step p e with Some q => scan q t' | None => None end
end.

(** The events added from one state to the other are accepted, from rest to
  rest. *)
Definition placed {W : Type} (st st' : run_state W) : Prop :=
∃ evs, trace st' = trace st ++ evs ∧ scan Trace.Idle evs = Some Trace.Idle.

End Placement.

(** The line printed when the target test succeeds. *)
Definition target_notice : string := Str.nl +:+ "Target page reached!".

(** [":" in s] *)
Definition has_colon (s : string) : bool :=
  existsb (Ascii.eqb ":"%char) (list_ascii_of_string s).

(** ** [main] *)

Section Main.
Context {W : Type} {services : World W} {python : PyRuntime}.

Definition start_page : string := "Pizza".
Definition target_page : string := "Chocolate".

(** The line of line 196. *)
Definition main_banner : event :=
  EvPrint (Str.nl +:+ "Starting exploration from '" +:+ start_page
           +:+ "' towards '" +:+ target_page +:+ "'...").

(** Lines 193-200, with [asyncio.run] running [explore_path] to its end and
    the default of 100 passes. *)
Definition main (fuel : nat) (w : W) : outcome unit * run_state W :=
  let banner := main_banner in
  match explore_path fuel start_page target_page 100 w with
  | (Ok path, st) =>
      (Ok tt,
       {| world := world st;
          trace := banner :: trace st
                   ++ [EvPrint (Str.nl +:+ "Exploration path:");
                       EvPrint (Str.join " -> " path)];
          sem_value := sem_value st; cache := cache st |})
  | (Raise e, st) =>
      (Raise e, {| world := world st; trace := banner :: trace st;
                   sem_value := sem_value st; cache := cache st |})
  | (NoReturn, st) =>
      (NoReturn, {| world := world st; trace := banner :: trace st;
                    sem_value := sem_value st; cache := cache st |})
  end.

End Main.

(** ** More worlds to run the definitions in *)

Module Cases.
Import Sample.

(** The page has two pages of links: the first comes after two throttled
    replies and carries a continuation, the second after one. *)
Definition first_page : api_data :=
  {| query_pages := [("1", Some ["Tomato"; "Help:Contents"; "Cheese"])];
     continue_params := Some {["plcontinue" := "1|0|Dough"]} |}.

Definition second_page : api_data :=
  {| query_pages := [("1", Some ["Dough"; "Tomato"; "File:Pizza.jpg"])];
     continue_params := None |}.

Definition two_page_world : script :=
  {| replies := [throttled_reply; throttled_reply;
                 inr {| status := 200; json_body := Some first_page |};
                 throttled_reply;
                 inr {| status := 200; json_body := Some second_page |}];
     answers := [] |}.

(** The source answers with a server error. *)
Definition broken_world : script :=
  {| replies := [inr {| status := 503; json_body := None |}]; answers := [] |}.

(** The source answers with status 203 and a body. *)
Definition lenient_world : script :=
  {| replies := [inr {| status := 203;
                        json_body := Some {| query_pages := [("1", Some ["Tomato"])];
                                             continue_params := None |} |}];
     answers := [] |}.

(** The model cannot be reached. *)
Definition mute_world : script :=
  {| replies := [page_reply ["Tomato"; "Cheese"]];
     answers := [CallRaises (GenerationError "unreachable")] |}.

(** The model walks from "Pizza" to "Chocolate" in two steps. *)
Definition walk_world : script :=
  {| replies := [page_reply ["Tomato"; "Cocoa"]; page_reply ["Chocolate"; "Bean"]];
     answers := [Text "Cocoa"; Text " Chocolate"] |}.

Definition walk_final : run_state script :=
  Eval vm_compute in (explore_path 3 "Pizza" "Chocolate" 5 walk_world).2.

Definition walk_fetched : run_state script :=
  Eval vm_compute in
    (get_links_from_page 3 "Pizza"
       (printing (pass_banner 0 pizza_vars) (initial_state walk_world))).2.

Definition mute_fetched : run_state script :=
  Eval vm_compute in
    (get_links_from_page 3 "Pizza"
       (printing (pass_banner 0 pizza_vars) (initial_state mute_world))).2.

Definition gave_up : run_state script :=
  Eval vm_compute in
    (retry_loop MAX_RETRIES "Pizza" (initial_params "Pizza") 0
       (initial_state (throttled_world 6))).2.

Definition main_final : run_state script :=
  Eval vm_compute in (main 3 walk_world).2.

End Cases.

(** ** One permit for one exchange *)

Module Bracket.

(** Where the task stands in lines 48-64: at rest outside of [async with
    semaphore], with the permit taken and no request sent yet, with the
    request sent, with the response in, with the response left and the
    permit still to give back. *)
Inductive phase := Rest | Held | Sent | Answered | Closed.

(** One event, read with the counter of the semaphore at that point.
    [acquire] needs the counter above zero and takes one from it, [release]
    adds one to it. A request is sent only right after an acquire, and once
    its exchange has ended nothing but the release is accepted: a further
    request, a retry as well, needs a new acquire. The response comes once,
    the sleep of the backoff and the prints of lines 53 and 62 after it, and
    the calls of the model and their [time.sleep] only at rest. *)
Definition step (s : phase * nat) (e : event) : option (phase * nat) :=
  let (p, free) := s in
  match e with
  | EvAcquire =>
      match p, free with Rest, S n => Some (Held, n) | _, _ => None end
  | EvRequest _ =>
      match p with Held => Some (Sent, free) | _ => None end
  | EvResponse _ =>
      match p with Sent => Some (Answered, free) | _ => None end
  | EvSleep _ =>
      match p with Answered => Some (Answered, free) | _ => None end
  | EvExchangeEnd =>
      match p with Sent | Answered => Some (Closed, free) | _ => None end
  | EvRelease =>
      match p with Closed => Some (Rest, S free) | _ => None end
  | EvPrint _ =>
      match p with Rest | Answered => Some (p, free) | _ => None end
  | EvGenerate _ | EvTimeSleep _ =>
      match p with Rest => Some (Rest, free) | _ => None end
  end.

Fixpoint run (s : phase * nat) (t : list event) : option (phase * nat) :=
  match t with
  | [] => Some s
  | e :: t' => match step s e with Some s' => run s' t' | None => None end
  end.

(** The permits taken, the requests not yet sent under a permit, and the
    exchanges open, by the phase. *)
Definition held (p : phase) : Z :=
  match p with Rest => 0 | _ => 1 end.

Definition waiting (p : phase) : Z :=
  match p with Held => 1 | _ => 0 end.

Definition open (p : phase) : Z :=
  match p with Sent | Answered => 1 | _ => 0 end.

(** The phase of [Trace.step] that a phase stands for, where the permit is
    held from the acquire to the release. *)
Definition coarse (p : phase) : Trace.phase :=
  match p with
  | Rest => Trace.Idle
  | Held | Closed => Trace.Holding
  | Sent | Answered => Trace.Flying
  end.

(** From the state [st] to the state [st'] the events added are accepted
    from rest to rest, and the counter read along them goes from the
    counter of the semaphore in [st] to the one in [st']. *)
Definition tracked {W : Type} (st st' : run_state W) : Prop :=
  ∃ evs, trace st' = trace st ++ evs
         ∧ run (Rest, sem_value st) evs = Some (Rest, sem_value st').

End Bracket.
(** * Properties *)

(** ** The filter of line 80 *)

Lemma denied_denylist link :
  denied link = existsb (Str.startswith link) denylist.
Proof. unfold denied, denylist. simpl. rewrite orb_false_r, !orb_assoc. reflexivity. Qed.

Lemma denied_false_prefix link :
  denied link = false ↔ ∀ p, p ∈ denylist → Str.startswith link p = false.
Proof.
  rewrite denied_denylist. split.
  - intros Hex p Hp. apply list_elem_of_In in Hp.
    destruct (Str.startswith link p) eqn:Hs; [|done].
    assert (existsb (Str.startswith link) denylist = true) as Ht
      by (apply existsb_exists; eauto).
    congruence.
  - intros Hall. apply not_true_is_false. intros Hex.
    apply existsb_exists in Hex as (p & Hp & Hs).
    apply list_elem_of_In in Hp. rewrite (Hall p Hp) in Hs. discriminate.
Qed.

Lemma filter_denied_nil links :
  List.filter denied links = [] → List.filter kept links = links.
Proof.
  induction links as [|y l IH]; simpl; [done|]. unfold kept at 1.
  destruct (denied y); simpl; [discriminate|]. intros H. f_equal. auto.
Qed.

(** Removing the first denied title of a list: it is there, and the titles
    that are kept are not touched. *)
Lemma list_remove_first_denied x links r :
  denied x = true → List.filter denied links = x :: r →
  ∃ links', list_remove x links = Some links'
            ∧ List.filter denied links' = r
            ∧ List.filter kept links' = List.filter kept links.
Proof.
  intros Hx. induction links as [|y l IH]; simpl; [discriminate|].
  unfold kept at 2. destruct (denied y) eqn:Hy; simpl.
  - intros [= -> Hr]. rewrite decide_True by done. eauto.
  - intros Hf. rewrite decide_False by congruence.
    destruct (IH Hf) as (l' & -> & Hd & Hk).
    eexists; split; [reflexivity|]. simpl. unfold kept at 1. rewrite Hy. simpl.
    split; [done|]. by rewrite Hk.
Qed.

Lemma remove_denied_filter copy links :
  List.filter denied links = List.filter denied copy →
  remove_denied copy links = Some (List.filter kept links).
Proof.
  revert links. induction copy as [|x c IH]; intros links; simpl.
  - intros H. by rewrite filter_denied_nil.
  - destruct (denied x) eqn:Hx.
    + intros H. destruct (list_remove_first_denied x links _ Hx H) as (l' & -> & Hd & Hk).
      rewrite <- Hk. by apply IH.
    + apply IH.
Qed.

(** The loop of lines 79-81 never raises and leaves the titles that are not
    denied, in their order. *)
Lemma remove_denied_self links :
  remove_denied links links = Some (List.filter kept links).
Proof. by apply remove_denied_filter. Qed.

Lemma filter_kept_Forall links :
  Forall (fun link => denied link = false) (List.filter kept links).
Proof.
  apply Forall_forall. intros x Hx. apply list_elem_of_In, filter_In in Hx as [_ Hx].
  unfold kept in Hx. by destruct (denied x).
Qed.

(** ** Traces and the bracketing of exchanges *)

Lemma scan_app p t1 t2 :
  Trace.scan p (t1 ++ t2) =
  match Trace.scan p t1 with Some q => Trace.scan q t2 | None => None end.
Proof.
  revert p. induction t1 as [|e t IH]; intros p; simpl; [done|].
  destruct (Trace.step p e); [apply IH|done].
Qed.

Lemma count_app P t1 t2 :
  Trace.count P (t1 ++ t2) = (Trace.count P t1 + Trace.count P t2)%nat.
Proof. unfold Trace.count. by rewrite List.filter_app, length_app. Qed.

(** A trace the automaton accepts holds as many permits and has as many
    exchanges in flight as the phases it goes between say. *)
Lemma scan_balance p q t :
  Trace.scan p t = Some q →
  (Trace.permits_held t = Trace.held_in q - Trace.held_in p
   ∧ Trace.in_flight t = Trace.flying_in q - Trace.flying_in p)%Z.
Proof.
  revert p. induction t as [|e t IH]; intros p; simpl.
  - intros [= ->]. unfold Trace.permits_held, Trace.in_flight, Trace.count. simpl. lia.
  - destruct (Trace.step p e) as [m|] eqn:Hs; [|discriminate]. intros Hq.
    destruct (IH _ Hq) as [Hh Hf]. revert Hh Hf.
    unfold Trace.permits_held, Trace.in_flight, Trace.count.
    destruct e, p; simpl in Hs; simplify_eq; simpl; lia.
Qed.

(** Every prefix of an accepted trace holds at most one permit, and has an
    exchange in flight only while holding it. *)
Lemma scan_prefix_bounds t t' :
  Trace.scan Trace.Idle t = Some Trace.Idle → t' `prefix_of` t →
  (0 ≤ Trace.in_flight t' ≤ Trace.permits_held t' ∧ Trace.permits_held t' ≤ 1)%Z.
Proof.
  intros Hscan [rest ->]. rewrite scan_app in Hscan.
  destruct (Trace.scan Trace.Idle t') as [m|] eqn:Hm; [|discriminate].
  destruct (scan_balance _ _ _ Hm) as [-> ->].
  destruct m; simpl; lia.
Qed.
(** ** Runs of the fetcher *)

#[local] Arguments pretty : simpl never.
#[local] Arguments Nat.pow : simpl never.

Ltac run_unfold :=
  unfold exchange, with_semaphore, with_session_get, finally, bind, ret, raise, no_return,
    sem_acquire, sem_release, session_get, raise_for_status, response_json,
    cache_lookup, cache_store, print, emit in *.

Ltac run_cases :=
  repeat first [ progress run_unfold | case_match | progress simplify_eq/= ].

Ltac quiet_here :=
  split; [simpl; congruence|]; split; [done|];
  eexists; split; [simpl; rewrite <- ?app_assoc; reflexivity | reflexivity].

Section FetcherFacts.
Context {W : Type} {services : World W} {python : PyRuntime}.

Lemma quiet_refl (st : run_state W) : quiet st st.
Proof.
  split; [done|]. split; [done|]. exists []. by rewrite app_nil_r.
Qed.

Lemma quiet_trans (st1 st2 st3 : run_state W) :
  quiet st1 st2 → quiet st2 st3 → quiet st1 st3.
Proof.
  intros (Hs1 & Hc1 & e1 & Ht1 & Hsc1) (Hs2 & Hc2 & e2 & Ht2 & Hsc2).
  split; [congruence|]. split; [congruence|].
  exists (e1 ++ e2). split.
  - by rewrite Ht2, Ht1, app_assoc.
  - by rewrite scan_app, Hsc1.
Qed.

Lemma quiet_evolves (st st' : run_state W) : quiet st st' → evolves st st'.
Proof. intros (Hs & Hc & He). split; [done|]. split; [by rewrite Hc|done]. Qed.

Lemma evolves_refl (st : run_state W) : evolves st st.
Proof. apply quiet_evolves, quiet_refl. Qed.

Lemma evolves_trans (st1 st2 st3 : run_state W) :
  evolves st1 st2 → evolves st2 st3 → evolves st1 st3.
Proof.
  intros (Hs1 & Hc1 & e1 & Ht1 & Hsc1) (Hs2 & Hc2 & e2 & Ht2 & Hsc2).
  split; [congruence|]. split; [by etrans|].
  exists (e1 ++ e2). split.
  - by rewrite Ht2, Ht1, app_assoc.
  - by rewrite scan_app, Hsc1.
Qed.

Lemma print_quiet line (st : run_state W) : quiet st (printing line st).
Proof. quiet_here. Qed.

Lemma exchange_eq page_title params retry_count (st : run_state W) :
  exchange page_title params retry_count st =
  match sem_value st with
  | O => (NoReturn, st)
  | S n =>
      let leave t :=
        {| world := (http_get (world st) params).2; trace := t ++ [EvExchangeEnd; EvRelease];
           sem_value := S n; cache := cache st |} in
      let t1 := trace st ++ [EvAcquire; EvRequest params] in
      match (http_get (world st) params).1 with
      | inl e => (Raise e, leave t1)
      | inr response =>
          let t2 := t1 ++ [EvResponse (status response)] in
          if (status response =? 429)%Z then
            (Ok (inr (S retry_count)),
             leave (t2 ++ [EvPrint ("Received 429 for '" +:+ page_title
                                    +:+ "'. Retrying in "
                                    +:+ pretty (2 ^ S retry_count)%nat +:+ " seconds...");
                           EvSleep (2 ^ S retry_count)]))
          else if negb (status response =? 200)%Z && (400 <=? status response)%Z then
            (Raise (ClientResponseError (status response)), leave t2)
          else
            match json_body response with
            | Some data => (Ok (inl data), leave t2)
            | None =>
                (Raise JsonDecodeError,
                 leave (t2 ++ [EvPrint ("Error decoding JSON for page: " +:+ page_title)]))
            end
      end
  end.
Proof.
  unfold exchange, with_semaphore, bind at 1, sem_acquire.
  destruct (sem_value st) as [|n]; [done|].
  unfold finally at 1, with_session_get, finally at 1, bind at 1, session_get,
    response_json.
  cbn [world trace sem_value cache].
  destruct (http_get (world st) params) as [[e|response] w'].
  - cbn -[pretty Nat.pow]. by rewrite <- ?app_assoc.
  - cbn [fst snd]. destruct (status response =? 429)%Z.
    + cbn -[pretty Nat.pow]. by rewrite <- ?app_assoc.
    + destruct (status response =? 200)%Z; cbn [negb andb].
      * destruct (json_body response); cbn -[pretty Nat.pow]; rewrite <- ?app_assoc;
          reflexivity.
      * unfold raise_for_status. destruct (400 <=? status response)%Z.
        -- cbn -[pretty Nat.pow]. by rewrite <- ?app_assoc.
        -- destruct (json_body response); cbn -[pretty Nat.pow]; rewrite <- ?app_assoc;
             reflexivity.
Qed.

Lemma exchange_quiet page_title params retry_count (st : run_state W) r st' :
  exchange page_title params retry_count st = (r, st') → quiet st st'.
Proof.
  rewrite exchange_eq. destruct (sem_value st) as [|n] eqn:Hn.
  { intros [= <- <-]. apply quiet_refl. }
  cbv zeta. intros Hrun.
  repeat case_match; simplify_eq; quiet_here.
Qed.

Lemma retry_loop_eq steps page_title params retry_count :
  retry_loop steps page_title params retry_count =
  if (retry_count <? MAX_RETRIES)%nat then
    match steps with
    | O => no_return
    | S steps' =>
        (let* r := exchange page_title params retry_count in
         match r with
         | inl data => ret data
         | inr retry_count' => retry_loop steps' page_title params retry_count'
         end)%run
    end
  else raise (MaxRetriesExceeded page_title) (W := W).
Proof. by destruct steps. Qed.

Lemma paginate_eq fuel page_title links params :
  paginate (S fuel) page_title links params =
  (let* data := retry_loop MAX_RETRIES page_title params 0 in
   match continue_params data with
   | Some c => paginate fuel page_title (add_links links (query_pages data)) (c ∪ params)
   | None => ret (add_links links (query_pages data))
   end)%run.
Proof. done. Qed.

Lemma retry_loop_quiet steps page_title params retry_count (st : run_state W) r st' :
  retry_loop steps page_title params retry_count st = (r, st') → quiet st st'.
Proof.
  revert retry_count st. induction steps as [|steps IH]; intros retry_count st; simpl.
  - destruct (retry_count <? MAX_RETRIES)%nat; intros [= <- <-]; apply quiet_refl.
  - destruct (retry_count <? MAX_RETRIES)%nat; [|intros [= <- <-]; apply quiet_refl].
    unfold bind at 1.
    destruct (exchange page_title params retry_count st) as [[[data|rc]|e|] st1] eqn:Hex;
      apply exchange_quiet in Hex.
    + intros [= <- <-]. done.
    + intros Hrec. apply IH in Hrec. by eapply quiet_trans.
    + intros [= <- <-]. done.
    + intros [= <- <-]. done.
Qed.

Lemma paginate_quiet fuel page_title links params (st : run_state W) r st' :
  paginate fuel page_title links params st = (r, st') → quiet st st'.
Proof.
  revert links params st. induction fuel as [|fuel IH]; intros links params st.
  - intros [= <- <-]. apply quiet_refl.
  - rewrite paginate_eq. unfold bind at 1.
    destruct (retry_loop MAX_RETRIES page_title params 0 st) as [[data|e|] st1] eqn:Hre;
      apply retry_loop_quiet in Hre.
    + destruct (continue_params data).
      * intros Hrec. apply IH in Hrec. by eapply quiet_trans.
      * intros [= <- <-]. done.
    + intros [= <- <-]. done.
    + intros [= <- <-]. done.
Qed.

(** The passes allowed are enough: the loop ends unless the semaphore
    blocks. *)
Lemma retry_loop_returns steps page_title params retry_count (st : run_state W) st' :
  (MAX_RETRIES ≤ steps + retry_count)%nat →
  retry_loop steps page_title params retry_count st = (NoReturn, st') →
  sem_value st = 0%nat.
Proof.
  revert retry_count st. induction steps as [|steps IH]; intros retry_count st Hle;
    rewrite retry_loop_eq.
  - assert ((retry_count <? MAX_RETRIES)%nat = false) as -> by (apply Nat.ltb_ge; lia).
    done.
  - destruct (retry_count <? MAX_RETRIES)%nat eqn:Hlt; [|done].
    unfold bind at 1.
    destruct (exchange page_title params retry_count st) as [[[data|rc]|e|] st1] eqn:Hex;
      try done.
    + pose proof Hex as Hq. apply exchange_quiet in Hq as (Hs & _).
      rewrite exchange_eq in Hex. destruct (sem_value st) as [|n] eqn:Hn; [done|].
      cbv zeta in Hex.
      assert (rc = S retry_count) as -> by (repeat case_match; by simplify_eq).
      intros Hrec. apply IH in Hrec; [|lia]. congruence.
    + rewrite exchange_eq in Hex. destruct (sem_value st) as [|n] eqn:Hn; [done|].
      cbv zeta in Hex. repeat case_match; by simplify_eq.
Qed.

Lemma set_add_NoDup x (s : pyset) : NoDup s → NoDup (set_add x s).
Proof.
  intros Hs. unfold set_add. destruct (decide (x ∈ s)); [done|].
  apply NoDup_app. split; [done|]. split; [|apply NoDup_singleton].
  intros y Hy Hin. apply list_elem_of_singleton in Hin. by subst.
Qed.

Lemma add_links_NoDup (s : pyset) pages : NoDup s → NoDup (add_links s pages).
Proof.
  unfold add_links. revert s. induction pages as [|[id [titles|]] pages IH];
    intros s Hs; simpl; [done| |by apply IH].
  apply IH. clear IH. revert s Hs.
  induction titles as [|t titles IHt]; intros s Hs; simpl; [done|].
  by apply IHt, set_add_NoDup.
Qed.

Lemma paginate_NoDup fuel page_title links params (st : run_state W) set st' :
  paginate fuel page_title links params st = (Ok set, st') → NoDup links → NoDup set.
Proof.
  revert links params st. induction fuel as [|fuel IH]; intros links params st; [done|].
  rewrite paginate_eq. unfold bind at 1.
  destruct (retry_loop MAX_RETRIES page_title params 0 st) as [[data|e|] st1]; [|done..].
  destruct (continue_params data).
  - intros Hrec Hl. eapply IH; [done|]. by apply add_links_NoDup.
  - intros [= <- <-] Hl. by apply add_links_NoDup.
Qed.

Lemma elem_of_filter_kept link links :
  link ∈ List.filter kept links ↔ link ∈ links ∧ denied link = false.
Proof.
  rewrite !list_elem_of_In, filter_In. unfold kept.
  destruct (denied link); simpl; intuition congruence.
Qed.

(** A call that finds the title in the cache returns the stored list and
    changes nothing: no event, no step of the world. *)
Lemma get_links_from_page_hit fuel page_title links (st : run_state W) :
  cache st !! page_title = Some links →
  get_links_from_page fuel page_title st = (Ok links, st).
Proof.
  intros Hhit. unfold get_links_from_page, bind, cache_lookup. by rewrite Hhit.
Qed.

(** What a call that misses the cache does. *)
Lemma get_links_from_page_miss fuel page_title (st : run_state W) :
  cache st !! page_title = None →
  get_links_from_page fuel page_title st =
  match paginate fuel page_title [] (initial_params page_title) st with
  | (Ok set, st1) =>
      let links := List.filter kept (set_iter set) in
      (Ok links, {| world := world st1; trace := trace st1;
                    sem_value := sem_value st1;
                    cache := <[page_title := links]> (cache st1) |})
  | (Raise e, st1) => (Raise e, st1)
  | (NoReturn, st1) => (NoReturn, st1)
  end.
Proof.
  intros Hmiss. unfold get_links_from_page, bind at 1, cache_lookup. rewrite Hmiss.
  unfold bind at 1.
  destruct (paginate fuel page_title [] (initial_params page_title) st) as [[set|e|] st1];
    try done.
  by rewrite remove_denied_self.
Qed.

Lemma get_links_from_page_evolves fuel page_title (st : run_state W) r st' :
  get_links_from_page fuel page_title st = (r, st') → evolves st st'.
Proof.
  destruct (cache st !! page_title) as [links|] eqn:Hc.
  - rewrite (get_links_from_page_hit _ _ _ _ Hc). intros [= <- <-]. apply evolves_refl.
  - rewrite (get_links_from_page_miss _ _ _ Hc).
    destruct (paginate fuel page_title [] (initial_params page_title) st)
      as [[set|e|] st1] eqn:Hp; apply paginate_quiet in Hp;
      intros [= <- <-]; try by apply quiet_evolves.
    destruct Hp as (Hs & Hca & Hev). split; [done|]. split; [|done].
    simpl. rewrite Hca. by apply insert_subseteq.
Qed.

(** A call that returns leaves its result in the cache under the title. *)
Lemma get_links_from_page_cached fuel page_title (st : run_state W) links st' :
  get_links_from_page fuel page_title st = (Ok links, st') →
  cache st' !! page_title = Some links.
Proof.
  destruct (cache st !! page_title) as [l|] eqn:Hc.
  - rewrite (get_links_from_page_hit _ _ _ _ Hc). by intros [= <- <-].
  - rewrite (get_links_from_page_miss _ _ _ Hc).
    destruct (paginate fuel page_title [] (initial_params page_title) st) as [[set|e|] st1];
      intros [= <- <-]. simpl. apply lookup_insert_eq.
Qed.

(** A call that does not return a list leaves the cache as it was. *)
Lemma get_links_from_page_failed fuel page_title (st : run_state W) r st' :
  get_links_from_page fuel page_title st = (r, st') →
  (∀ links, r ≠ Ok links) → cache st' = cache st.
Proof.
  destruct (cache st !! page_title) as [l|] eqn:Hc.
  - rewrite (get_links_from_page_hit _ _ _ _ Hc). by intros [= <- <-].
  - rewrite (get_links_from_page_miss _ _ _ Hc).
    destruct (paginate fuel page_title [] (initial_params page_title) st)
      as [[set|e|] st1] eqn:Hp; apply paginate_quiet in Hp;
      intros [= <- <-] Hr; try apply Hp. by destruct (Hr _ eq_refl).
Qed.

Lemma get_links_from_page_filtered fuel page_title (st : run_state W) links st' :
  get_links_from_page fuel page_title st = (Ok links, st') →
  cache_filtered (cache st) →
  Forall (fun link => denied link = false) links ∧ cache_filtered (cache st').
Proof.
  intros Hrun Hclean.
  destruct (cache st !! page_title) as [l|] eqn:Hc.
  - rewrite (get_links_from_page_hit _ _ _ _ Hc) in Hrun. simplify_eq. eauto.
  - rewrite (get_links_from_page_miss _ _ _ Hc) in Hrun.
    destruct (paginate fuel page_title [] (initial_params page_title) st)
      as [[set|e|] st1] eqn:Hp; apply paginate_quiet in Hp; cbv zeta in Hrun;
      simplify_eq.
    split; [apply filter_kept_Forall|].
    intros k v. simpl. destruct Hp as (_ & -> & _).
    destruct (decide (k = page_title)) as [->|Hne].
    + rewrite lookup_insert_eq. intros [= <-]. apply filter_kept_Forall.
    + rewrite lookup_insert_ne by done. apply Hclean.
Qed.

End FetcherFacts.

(** ** Runs of the oracle adapter and of the loop body *)

Section ExplorerFacts.
Context {W : Type} {services : World W} {python : PyRuntime}.

Lemma choose_next_link_quiet current target seen links (st : run_state W) r st' :
  choose_next_link current target seen links st = (r, st') → quiet st st'.
Proof.
  unfold choose_next_link, generate_response. intros Hrun. run_cases.
  all: quiet_here.
Qed.

(** The pass that finds the target. *)
Lemma explore_iteration_target fuel target iteration vars (st : run_state W) :
  normalize (current_page vars) = normalize target →
  explore_iteration fuel target iteration vars st =
  (Ok (Return (path vars)), printing (Str.nl +:+ "Target page reached!") st).
Proof. intros Heq. unfold explore_iteration. by rewrite decide_True. Qed.

(** The pass on a page without links. *)
Lemma explore_iteration_stall fuel target iteration vars (st st1 : run_state W) :
  normalize (current_page vars) ≠ normalize target →
  get_links_from_page fuel (current_page vars) (printing (pass_banner iteration vars) st)
    = (Ok [], st1) →
  explore_iteration fuel target iteration vars st =
  (Ok (Next vars), printing (stall_notice vars) st1).
Proof.
  intros Hne Hget. unfold explore_iteration. rewrite decide_False by done.
  unfold bind at 1. unfold print at 1, emit at 1. unfold bind at 1.
  unfold printing, pass_banner in Hget. by rewrite Hget.
Qed.

(** The pass that takes the model's answer, or the first link instead. *)
Lemma explore_iteration_move fuel target iteration vars (st st1 st2 : run_state W)
    first_link rest answer :
  normalize (current_page vars) ≠ normalize target →
  get_links_from_page fuel (current_page vars) (printing (pass_banner iteration vars) st)
    = (Ok (first_link :: rest), st1) →
  choose_next_link (current_page vars) target (visited vars) (first_link :: rest) st1
    = (Ok answer, st2) →
  explore_iteration fuel target iteration vars st =
  if decide (answer ∈ first_link :: rest) then
    (Ok (Next {| current_page := answer; path := path vars ++ [answer];
                 visited := visited vars ++ [answer] |}),
     printing ("Moving to: " +:+ answer) st2)
  else
    (Ok (Next {| current_page := first_link; path := path vars ++ [first_link];
                 visited := visited vars ++ [first_link] |}),
     printing ("Moving to: " +:+ first_link)
       (printing ("Defaulting to first available link: '" +:+ first_link +:+ "'.")
          (printing ("Chosen link '" +:+ answer +:+ "' not in available links.") st2))).
Proof.
  intros Hne Hget Hchoose. unfold explore_iteration. rewrite decide_False by done.
  unfold bind at 1. unfold print at 1, emit at 1. unfold bind at 1.
  unfold printing, pass_banner in Hget. rewrite Hget.
  unfold bind at 1. rewrite Hchoose.
  destruct (decide (answer ∈ first_link :: rest)); reflexivity.
Qed.

(** How a pass can end, by what the fetch and the model do. *)
Lemma explore_iteration_cases fuel target iteration vars (st : run_state W) r st' :
  explore_iteration fuel target iteration vars st = (r, st') →
  normalize (current_page vars) ≠ normalize target →
  let st0 := printing (pass_banner iteration vars) st in
  match get_links_from_page fuel (current_page vars) st0 with
  | (Ok [], st1) => r = Ok (Next vars) ∧ st' = printing (stall_notice vars) st1
  | (Ok links, st1) =>
      match choose_next_link (current_page vars) target (visited vars) links st1 with
      | (Ok answer, st2) =>
          ∃ chosen, chosen ∈ links
            ∧ r = Ok (Next {| current_page := chosen; path := path vars ++ [chosen];
                              visited := visited vars ++ [chosen] |})
            ∧ quiet st2 st' ∧ world st' = world st2
      | (Raise e, st2) => r = Raise e ∧ st' = st2
      | (NoReturn, st2) => r = NoReturn ∧ st' = st2
      end
  | (Raise e, st1) => r = Raise e ∧ st' = st1
  | (NoReturn, st1) => r = NoReturn ∧ st' = st1
  end.
Proof.
  intros Hrun Hne st0.
  destruct (get_links_from_page fuel (current_page vars) st0)
    as [[[|first_link rest]|e|] st1] eqn:Hget.
  - rewrite (explore_iteration_stall _ _ _ _ _ _ Hne Hget) in Hrun. by simplify_eq.
  - destruct (choose_next_link (current_page vars) target (visited vars)
                (first_link :: rest) st1) as [[answer|e|] st2] eqn:Hch.
    + rewrite (explore_iteration_move _ _ _ _ _ _ _ _ _ _ Hne Hget Hch) in Hrun.
      destruct (decide (answer ∈ first_link :: rest)); simplify_eq.
      * exists answer. repeat split; try done. apply print_quiet.
      * exists first_link. split; [apply list_elem_of_here|]. split; [done|].
        split; [|done]. quiet_here.
    + revert Hrun. unfold explore_iteration. rewrite decide_False by done.
      unfold bind at 1. unfold print at 1, emit at 1. unfold bind at 1.
      unfold st0, printing, pass_banner in Hget. rewrite Hget.
      unfold bind at 1. rewrite Hch. by intros [= <- <-].
    + revert Hrun. unfold explore_iteration. rewrite decide_False by done.
      unfold bind at 1. unfold print at 1, emit at 1. unfold bind at 1.
      unfold st0, printing, pass_banner in Hget. rewrite Hget.
      unfold bind at 1. rewrite Hch. by intros [= <- <-].
  - revert Hrun. unfold explore_iteration. rewrite decide_False by done.
    unfold bind at 1. unfold print at 1, emit at 1. unfold bind at 1.
    unfold st0, printing, pass_banner in Hget. rewrite Hget. by intros [= <- <-].
  - revert Hrun. unfold explore_iteration. rewrite decide_False by done.
    unfold bind at 1. unfold print at 1, emit at 1. unfold bind at 1.
    unfold st0, printing, pass_banner in Hget. rewrite Hget. by intros [= <- <-].
Qed.

End ExplorerFacts.

(** ** Invariants of the loop *)

Section LoopFacts.
Context {W : Type} {services : World W} {python : PyRuntime}.

Lemma follows_links_weaken (c c' : gmap string (list string)) p :
  c ⊆ c' → follows_links c p → follows_links c' p.
Proof.
  intros Hsub Hf i x y Hx Hy. destruct (Hf i x y Hx Hy) as (links & Hl & Hin).
  exists links. split; [|done]. by eapply lookup_weaken.
Qed.

Lemma follows_links_snoc (c : gmap string (list string)) p x y links :
  follows_links c p → last p = Some x → c !! x = Some links → y ∈ links →
  follows_links c (p ++ [y]).
Proof.
  intros Hf Hlast Hc Hy i a b Ha Hb.
  destruct (decide (S i < length p)) as [Hlt|Hge].
  - rewrite lookup_app_l in Ha by lia. rewrite lookup_app_l in Hb by lia. eauto.
  - assert (S i < length (p ++ [y])) as Hlen by (by eapply lookup_lt_Some).
    rewrite length_app in Hlen. simpl in Hlen.
    assert (S i = length p) as Hi by lia.
    rewrite lookup_app_l in Ha by lia.
    rewrite lookup_app_r in Hb by lia. rewrite Hi, Nat.sub_diag in Hb. simpl in Hb.
    rewrite last_lookup in Hlast. replace (Nat.pred (length p)) with i in Hlast by lia.
    simplify_eq. eauto.
Qed.

Lemma explore_iteration_evolves fuel target iteration vars (st : run_state W) r st' :
  explore_iteration fuel target iteration vars st = (r, st') → evolves st st'.
Proof.
  intros Hrun.
  destruct (decide (normalize (current_page vars) = normalize target)) as [Heq|Hne].
  - rewrite explore_iteration_target in Hrun by done. simplify_eq.
    apply quiet_evolves, print_quiet.
  - pose proof (explore_iteration_cases _ _ _ _ _ _ _ Hrun Hne) as Hc. cbv zeta in Hc.
    eapply evolves_trans; [apply quiet_evolves, print_quiet|].
    destruct (get_links_from_page fuel (current_page vars)
                (printing (pass_banner iteration vars) st))
      as [[[|first_link rest]|e|] st1] eqn:Hget;
      apply get_links_from_page_evolves in Hget.
    + destruct Hc as [_ ->]. eapply evolves_trans; [done|].
      apply quiet_evolves, print_quiet.
    + destruct (choose_next_link (current_page vars) target (visited vars)
                  (first_link :: rest) st1) as [[answer|e|] st2] eqn:Hch;
        apply choose_next_link_quiet, quiet_evolves in Hch.
      * destruct Hc as (chosen & _ & _ & Hq & _).
        eapply evolves_trans; [done|]. eapply evolves_trans; [done|].
        by apply quiet_evolves.
      * destruct Hc as [_ ->]. by eapply evolves_trans.
      * destruct Hc as [_ ->]. by eapply evolves_trans.
    + by destruct Hc as [_ ->].
    + by destruct Hc as [_ ->].
Qed.

(** A pass that returns hands back the path as it stands. *)
Lemma explore_iteration_return fuel target iteration vars (st : run_state W) p st' :
  explore_iteration fuel target iteration vars st = (Ok (Return p), st') →
  p = path vars ∧ normalize (current_page vars) = normalize target.
Proof.
  intros Hrun.
  destruct (decide (normalize (current_page vars) = normalize target)) as [Heq|Hne].
  - rewrite explore_iteration_target in Hrun by done. by simplify_eq.
  - pose proof (explore_iteration_cases _ _ _ _ _ _ _ Hrun Hne) as Hc. cbv zeta in Hc.
    destruct (get_links_from_page fuel (current_page vars)
                (printing (pass_banner iteration vars) st))
      as [[[|first_link rest]|e|] st1]; try (destruct Hc; by simplify_eq).
    destruct (choose_next_link (current_page vars) target (visited vars)
                (first_link :: rest) st1) as [[answer|e|] st2];
      try (destruct Hc; by simplify_eq).
    destruct Hc as (chosen & _ & Hr & _). by simplify_eq.
Qed.

(** A pass that goes on either stalls, or moves to a title of the list now
    cached for the page it leaves. *)
Lemma explore_iteration_next fuel target iteration vars (st : run_state W) vars' st' :
  explore_iteration fuel target iteration vars st = (Ok (Next vars'), st') →
  vars' = vars
  ∨ ∃ links chosen,
      cache st' !! current_page vars = Some links ∧ chosen ∈ links
      ∧ vars' = {| current_page := chosen; path := path vars ++ [chosen];
                   visited := visited vars ++ [chosen] |}.
Proof.
  intros Hrun.
  destruct (decide (normalize (current_page vars) = normalize target)) as [Heq|Hne].
  - rewrite explore_iteration_target in Hrun by done. by simplify_eq.
  - pose proof (explore_iteration_cases _ _ _ _ _ _ _ Hrun Hne) as Hc. cbv zeta in Hc.
    destruct (get_links_from_page fuel (current_page vars)
                (printing (pass_banner iteration vars) st))
      as [[[|first_link rest]|e|] st1] eqn:Hget; try (destruct Hc; by simplify_eq).
    + left. destruct Hc. by simplify_eq.
    + apply get_links_from_page_cached in Hget.
      destruct (choose_next_link (current_page vars) target (visited vars)
                  (first_link :: rest) st1) as [[answer|e|] st2] eqn:Hch;
        try (destruct Hc; by simplify_eq).
      apply choose_next_link_quiet in Hch.
      destruct Hc as (chosen & Hin & Hr & Hq & _). simplify_eq.
      right. exists (first_link :: rest), chosen. split; [|done].
      destruct Hch as (_ & Hc1 & _). destruct Hq as (_ & Hc2 & _). congruence.
Qed.

Lemma explore_loop_evolves fuel target remaining iteration vars (st : run_state W) r st' :
  explore_loop fuel target remaining iteration vars st = (r, st') → evolves st st'.
Proof.
  revert iteration vars st.
  induction remaining as [|n IH]; intros iteration vars st; simpl.
  - intros [= <- <-]. apply quiet_evolves, print_quiet.
  - unfold bind at 1.
    destruct (explore_iteration fuel target iteration vars st) as [[[p|vars']|e|] st1] eqn:Hit;
      apply explore_iteration_evolves in Hit.
    + by intros [= <- <-].
    + intros Hrec. apply IH in Hrec. by eapply evolves_trans.
    + by intros [= <- <-].
    + by intros [= <- <-].
Qed.

Lemma explore_loop_follows fuel target remaining iteration vars (st : run_state W) p st' :
  explore_loop fuel target remaining iteration vars st = (Ok p, st') →
  follows_links (cache st) (path vars) → last (path vars) = Some (current_page vars) →
  follows_links (cache st') p.
Proof.
  revert iteration vars st.
  induction remaining as [|n IH]; intros iteration vars st; simpl.
  - by intros [= <- <-].
  - unfold bind at 1.
    destruct (explore_iteration fuel target iteration vars st) as [[[q|vars']|e|] st1] eqn:Hit;
      try done.
    + intros [= <- <-] Hf _.
      pose proof (explore_iteration_evolves _ _ _ _ _ _ _ Hit) as (_ & Hsub & _).
      apply explore_iteration_return in Hit as [-> _].
      by eapply follows_links_weaken.
    + intros Hrec Hf Hlast. apply (IH _ _ _ Hrec).
      * pose proof (explore_iteration_evolves _ _ _ _ _ _ _ Hit) as (_ & Hsub & _).
        apply explore_iteration_next in Hit as [->|(links & chosen & Hc & Hin & ->)].
        -- by eapply follows_links_weaken.
        -- simpl. eapply follows_links_snoc; [|done..].
           by eapply follows_links_weaken.
      * apply explore_iteration_next in Hit as [->|(links & chosen & Hc & Hin & ->)];
          [done|]. simpl. by rewrite last_snoc.
Qed.

Lemma explore_loop_length fuel target remaining iteration vars (st : run_state W) p st' :
  explore_loop fuel target remaining iteration vars st = (Ok p, st') →
  (length p ≤ length (path vars) + remaining)%nat.
Proof.
  revert iteration vars st.
  induction remaining as [|n IH]; intros iteration vars st; simpl.
  - intros [= <- <-]. lia.
  - unfold bind at 1.
    destruct (explore_iteration fuel target iteration vars st) as [[[q|vars']|e|] st1] eqn:Hit;
      try done.
    + intros [= <- <-]. apply explore_iteration_return in Hit as [-> _]. lia.
    + intros Hrec. apply IH in Hrec.
      apply explore_iteration_next in Hit as [->|(links & chosen & Hc & Hin & ->)];
        [lia|]. simpl in Hrec. rewrite length_app in Hrec. simpl in Hrec. lia.
Qed.

End LoopFacts.

(** ** The fetcher never calls the model *)

Section FetcherOracle.
Context {W : Type} {services : World W} {python : PyRuntime}.

Lemma oracle_calls_app t1 t2 :
  Trace.oracle_calls (t1 ++ t2) = (Trace.oracle_calls t1 + Trace.oracle_calls t2)%nat.
Proof. apply count_app. Qed.

Lemma exchange_oracle_calls page_title params retry_count (st : run_state W) r st' :
  exchange page_title params retry_count st = (r, st') →
  Trace.oracle_calls (trace st') = Trace.oracle_calls (trace st).
Proof.
  rewrite exchange_eq. destruct (sem_value st) as [|n] eqn:Hn.
  { by intros [= <- <-]. }
  cbv zeta. intros Hrun.
  repeat case_match; simplify_eq; cbn [trace]; rewrite ?oracle_calls_app;
    unfold Trace.oracle_calls, Trace.count; simpl; lia.
Qed.

Lemma retry_loop_oracle_calls steps page_title params retry_count (st : run_state W) r st' :
  retry_loop steps page_title params retry_count st = (r, st') →
  Trace.oracle_calls (trace st') = Trace.oracle_calls (trace st).
Proof.
  revert retry_count st. induction steps as [|steps IH]; intros retry_count st;
    rewrite retry_loop_eq; destruct (retry_count <? MAX_RETRIES)%nat;
    try (by intros [= <- <-]).
  unfold bind at 1.
  destruct (exchange page_title params retry_count st) as [[[data|rc]|e|] st1] eqn:Hex;
    apply exchange_oracle_calls in Hex.
  - by intros [= <- <-].
  - intros Hrec. apply IH in Hrec. congruence.
  - by intros [= <- <-].
  - by intros [= <- <-].
Qed.

Lemma paginate_oracle_calls fuel page_title links params (st : run_state W) r st' :
  paginate fuel page_title links params st = (r, st') →
  Trace.oracle_calls (trace st') = Trace.oracle_calls (trace st).
Proof.
  revert links params st. induction fuel as [|fuel IH]; intros links params st.
  - by intros [= <- <-].
  - rewrite paginate_eq. unfold bind at 1.
    destruct (retry_loop MAX_RETRIES page_title params 0 st) as [[data|e|] st1] eqn:Hre;
      apply retry_loop_oracle_calls in Hre.
    + destruct (continue_params data).
      * intros Hrec. apply IH in Hrec. congruence.
      * by intros [= <- <-].
    + by intros [= <- <-].
    + by intros [= <- <-].
Qed.

Lemma get_links_from_page_oracle_calls fuel page_title (st : run_state W) r st' :
  get_links_from_page fuel page_title st = (r, st') →
  Trace.oracle_calls (trace st') = Trace.oracle_calls (trace st).
Proof.
  destruct (cache st !! page_title) as [links|] eqn:Hc.
  - rewrite (get_links_from_page_hit _ _ _ _ Hc). by intros [= <- <-].
  - rewrite (get_links_from_page_miss _ _ _ Hc).
    destruct (paginate fuel page_title [] (initial_params page_title) st)
      as [[set|e|] st1] eqn:Hp; apply paginate_oracle_calls in Hp;
      by intros [= <- <-].
Qed.

End FetcherOracle.


(** ** Stalled passes, exhausted budgets and the origin of exceptions *)

Section BudgetFacts.
Context {W : Type} {services : World W} {python : PyRuntime}.

(** Passes that all go on are followed by the lines after the loop. *)
Lemma run_passes_explore_loop fuel target n iteration vars (st : run_state W) vars' st' :
  run_passes fuel target n iteration vars st = Some (vars', st') →
  explore_loop fuel target n iteration vars st
  = (Ok (path vars'), printing budget_notice st').
Proof.
  revert iteration vars st. induction n as [|n IH]; intros iteration vars st; simpl.
  - by intros [= <- <-].
  - unfold bind at 1.
    destruct (explore_iteration fuel target iteration vars st) as [[[q|vars1]|e|] st1];
      try done. apply IH.
Qed.

(** Once the cache holds the empty list for the current page, which is not
    the target, a pass only prints its two lines. *)
Lemma explore_iteration_stalled fuel target iteration vars (st : run_state W) :
  normalize (current_page vars) ≠ normalize target →
  cache st !! current_page vars = Some [] →
  explore_iteration fuel target iteration vars st
  = (Ok (Next vars), printing (stall_notice vars) (printing (pass_banner iteration vars) st)).
Proof.
  intros Hne Hc. apply explore_iteration_stall; [done|].
  by apply get_links_from_page_hit.
Qed.

Lemma run_passes_stalled fuel target n iteration vars (st : run_state W) :
  normalize (current_page vars) ≠ normalize target →
  cache st !! current_page vars = Some [] →
  ∃ st_n, run_passes fuel target n iteration vars st = Some (vars, st_n)
          ∧ world st_n = world st ∧ cache st_n = cache st
          ∧ sem_value st_n = sem_value st
          ∧ ∃ evs, trace st_n = trace st ++ evs
                   ∧ Forall (fun e => Trace.is_print e = true) evs.
Proof.
  intros Hne. revert iteration st. induction n as [|n IH]; intros iteration st Hc; simpl.
  - exists st. repeat split; try done. exists []. by rewrite app_nil_r.
  - rewrite explore_iteration_stalled by done.
    destruct (IH (S iteration)
                (printing (stall_notice vars) (printing (pass_banner iteration vars) st)) Hc)
      as (st_n & Hrun & Hw & Hca & Hs & evs & Ht & Hp).
    exists st_n. repeat split; try done.
    exists ([EvPrint (pass_banner iteration vars); EvPrint (stall_notice vars)] ++ evs).
    split.
    + rewrite Ht. simpl. by rewrite <- !app_assoc.
    + apply Forall_app. split; [|done]. by repeat constructor.
Qed.

(** An exception of a pass is one of the fetch or one of the model. *)
Lemma explore_iteration_raise fuel target iteration vars (st : run_state W) e st' :
  explore_iteration fuel target iteration vars st = (Raise e, st') →
  (∃ st0, get_links_from_page fuel (current_page vars) st0 = (Raise e, st'))
  ∨ (∃ links st1,
        choose_next_link (current_page vars) target (visited vars) links st1
        = (Raise e, st')).
Proof.
  intros Hrun.
  destruct (decide (normalize (current_page vars) = normalize target)) as [Heq|Hne].
  - rewrite explore_iteration_target in Hrun by done. by simplify_eq.
  - pose proof (explore_iteration_cases _ _ _ _ _ _ _ Hrun Hne) as Hc. cbv zeta in Hc.
    destruct (get_links_from_page fuel (current_page vars)
                (printing (pass_banner iteration vars) st))
      as [[[|first_link rest]|e1|] st1] eqn:Hget.
    + destruct Hc. by simplify_eq.
    + destruct (choose_next_link (current_page vars) target (visited vars)
                  (first_link :: rest) st1) as [[answer|e2|] st2] eqn:Hch.
      * destruct Hc as (chosen & _ & Hr & _). by simplify_eq.
      * destruct Hc as [Hr ->]. simplify_eq. right. eauto.
      * destruct Hc. by simplify_eq.
    + destruct Hc as [Hr ->]. simplify_eq. left. eauto.
    + destruct Hc. by simplify_eq.
Qed.

Lemma explore_loop_raise fuel target n iteration vars (st : run_state W) e st' :
  explore_loop fuel target n iteration vars st = (Raise e, st') →
  (∃ page st0, get_links_from_page fuel page st0 = (Raise e, st'))
  ∨ (∃ current seen links st1,
        choose_next_link current target seen links st1 = (Raise e, st')).
Proof.
  revert iteration vars st. induction n as [|n IH]; intros iteration vars st; simpl.
  - by intros [=].
  - unfold bind at 1.
    destruct (explore_iteration fuel target iteration vars st) as [[[q|vars1]|e1|] st1] eqn:Hit;
      try done.
    + apply IH.
    + intros [= <- <-]. apply explore_iteration_raise in Hit as [(st0 & H0)|(l & s & H1)];
        [left|right]; eauto 6.
Qed.

End BudgetFacts.

(** ** Throttled exchanges *)

Section ThrottlingFacts.
Context {W : Type} {services : World W} {python : PyRuntime}.

(** An exchange answered with status 429: the counter goes up by one and
    the task sleeps 2 to the power of the counter. *)
Lemma exchange_throttled page_title params retry_count (st : run_state W) response w' :
  sem_value st ≠ 0%nat →
  http_get (world st) params = (inr response, w') →
  status response = 429%Z →
  exchange page_title params retry_count st
  = (Ok (inr (S retry_count)),
     {| world := w';
        trace := trace st ++ throttled_exchange page_title params (S retry_count);
        sem_value := sem_value st; cache := cache st |}).
Proof.
  intros Hsem Hget Hst. run_unfold.
  destruct (sem_value st) as [|n] eqn:Hn; [done|]. simpl.
  rewrite Hget. simpl. rewrite Hst. simpl.
  unfold throttled_exchange. by rewrite <- !app_assoc.
Qed.

(** An exchange answered with status 200 and a body that decodes. *)
Lemma exchange_success page_title params retry_count (st : run_state W) response w' data :
  sem_value st ≠ 0%nat →
  http_get (world st) params = (inr response, w') →
  status response = 200%Z →
  json_body response = Some data →
  exchange page_title params retry_count st
  = (Ok (inl data),
     {| world := w'; trace := trace st ++ successful_exchange params;
        sem_value := sem_value st; cache := cache st |}).
Proof.
  intros Hsem Hget Hst Hbody. run_unfold.
  destruct (sem_value st) as [|n] eqn:Hn; [done|]. simpl.
  rewrite Hget. simpl. rewrite Hst. simpl. rewrite Hbody. simpl.
  unfold successful_exchange. by rewrite <- !app_assoc.
Qed.

(** [k] throttled exchanges in a row, while the counter stays within
    [MAX_RETRIES]: the loop is where it would be had it started after them. *)
Lemma retry_loop_throttled k : ∀ steps page_title params retry_count (st : run_state W) w',
  sem_value st ≠ 0%nat →
  throttles k (world st) params = Some w' →
  (retry_count + k ≤ MAX_RETRIES)%nat → (k ≤ steps)%nat →
  retry_loop steps page_title params retry_count st
  = retry_loop (steps - k) page_title params (retry_count + k)
      {| world := w';
         trace := trace st ++
                  flat_map (throttled_exchange page_title params) (seq (S retry_count) k);
         sem_value := sem_value st; cache := cache st |}.
Proof.
  induction k as [|k IH]; intros steps page_title params retry_count st w' Hsem Hthr Hrc Hk.
  - simpl in Hthr. simplify_eq. simpl. rewrite Nat.sub_0_r, Nat.add_0_r, app_nil_r.
    by destruct st.
  - simpl in Hthr.
    destruct (http_get (world st) params) as [[e|response] w1] eqn:Hget; [done|].
    destruct (status response =? 429)%Z eqn:Hst; [|done].
    apply Z.eqb_eq in Hst.
    destruct steps as [|steps]; [lia|].
    rewrite retry_loop_eq.
    assert ((retry_count <? MAX_RETRIES)%nat = true) as -> by (apply Nat.ltb_lt; lia).
    unfold bind at 1.
    rewrite (exchange_throttled _ _ _ _ _ _ Hsem Hget Hst).
    rewrite (IH steps page_title params (S retry_count) _ w'); [|done|done|lia|lia].
    cbn [world trace sem_value cache seq flat_map]. rewrite Nat.sub_succ.
    replace (S retry_count + k)%nat with (retry_count + S k)%nat by lia.
    by rewrite <- app_assoc.
Qed.

(** After [MAX_RETRIES] throttled exchanges the loop gives up. *)
Lemma retry_loop_gives_up page_title params (st : run_state W) w' :
  sem_value st ≠ 0%nat →
  throttles MAX_RETRIES (world st) params = Some w' →
  retry_loop MAX_RETRIES page_title params 0 st
  = (Raise (MaxRetriesExceeded page_title),
     {| world := w';
        trace := trace st ++
                 flat_map (throttled_exchange page_title params) (seq 1 MAX_RETRIES);
        sem_value := sem_value st; cache := cache st |}).
Proof.
  intros Hsem Hthr.
  rewrite (retry_loop_throttled MAX_RETRIES _ _ _ 0 _ w') by (done || lia).
  by rewrite retry_loop_eq.
Qed.

(** Fewer throttled exchanges, then a success: the loop returns the body. *)
Lemma retry_loop_recovers k page_title params (st : run_state W) w1 response w2 data :
  sem_value st ≠ 0%nat →
  (k < MAX_RETRIES)%nat →
  throttles k (world st) params = Some w1 →
  http_get w1 params = (inr response, w2) →
  status response = 200%Z →
  json_body response = Some data →
  retry_loop MAX_RETRIES page_title params 0 st
  = (Ok data,
     {| world := w2;
        trace := trace st ++
                 flat_map (throttled_exchange page_title params) (seq 1 k)
                 ++ successful_exchange params;
        sem_value := sem_value st; cache := cache st |}).
Proof.
  intros Hsem Hk Hthr Hget Hst Hbody.
  rewrite (retry_loop_throttled k _ _ _ 0 _ w1) by (done || lia).
  destruct (MAX_RETRIES - k)%nat as [|steps] eqn:Hsteps; [lia|].
  rewrite retry_loop_eq. simpl (0 + k)%nat.
  assert ((k <? MAX_RETRIES)%nat = true) as -> by (by apply Nat.ltb_lt).
  unfold bind at 1.
  rewrite (exchange_success _ _ _ _ response w2 data); try done.
  simpl. unfold ret. by rewrite <- app_assoc.
Qed.

Lemma throttles_le k j (w : W) params w' :
  throttles k w params = Some w' → (j ≤ k)%nat →
  ∃ w'', throttles j w params = Some w''.
Proof.
  revert k w. induction j as [|j IH]; intros k w Hthr Hj; simpl; [eauto|].
  destruct k as [|k]; [lia|]. simpl in Hthr.
  destruct (http_get w params) as [[e|response] w1]; [done|].
  destruct (status response =? 429)%Z; [|done].
  eapply IH; [done|lia].
Qed.

End ThrottlingFacts.

Section ThrottlingTraces.
Context {W : Type} {services : World W} {python : PyRuntime}.

Lemma sleeps_app t1 t2 : Trace.sleeps (t1 ++ t2) = Trace.sleeps t1 ++ Trace.sleeps t2.
Proof. unfold Trace.sleeps. apply omap_app. Qed.

Lemma sleeps_throttled page_title params attempts :
  Trace.sleeps (flat_map (throttled_exchange page_title params) attempts)
  = map (Nat.pow 2) attempts.
Proof.
  induction attempts as [|a l IH]; [done|].
  cbn [flat_map map]. rewrite sleeps_app, IH. reflexivity.
Qed.

Lemma requests_throttled page_title params attempts :
  Trace.requests (flat_map (throttled_exchange page_title params) attempts)
  = length attempts.
Proof.
  induction attempts as [|a l IH]; [done|].
  cbn [flat_map]. unfold Trace.requests in *. rewrite count_app, IH. reflexivity.
Qed.

Lemma requests_same_params page_title params attempts :
  Forall (fun e => match e with EvRequest q => q = params | _ => True end)
         (flat_map (throttled_exchange page_title params) attempts).
Proof.
  induction attempts as [|a l IH]; [constructor|].
  cbn [flat_map]. apply Forall_app. split; [|done]. by repeat constructor.
Qed.

End ThrottlingTraces.

(** ** The semaphore shared by several tasks *)

Section PoolFacts.

Lemma sum_list_insert (f : Trace.phase → nat) l i p q :
  l !! i = Some p →
  (sum_list (f <$> <[i := q]> l) + f p = sum_list (f <$> l) + f q)%nat.
Proof.
  revert i. induction l as [|a l IH]; intros [|i]; try done.
  - intros [= ->]. cbn. lia.
  - intros Hl. specialize (IH i Hl).
    change (<[S i := q]> (a :: l)) with (a :: <[i := q]> l).
    rewrite !fmap_cons. cbn [sum_list sum_list_with]. unfold id at 1 3. lia.
Qed.

Lemma pool_in_flight_le_held c : (Pool.in_flight c ≤ Pool.permits_held c)%nat.
Proof.
  unfold Pool.in_flight, Pool.permits_held.
  induction (Pool.tasks c) as [|p l IH]; [done|].
  rewrite !fmap_cons. cbn [sum_list sum_list_with]. unfold id at 1 3.
  destruct p; simpl; lia.
Qed.

(** A step keeps the permits of the semaphore and those held at their sum. *)
Lemma pool_step_permits c c' :
  Pool.step c c' →
  (Pool.permits c' + Pool.permits_held c' = Pool.permits c + Pool.permits_held c)%nat.
Proof.
  intros [c0 i p e q Hi Hstep Hacq]. unfold Pool.permits_held. simpl.
  pose proof (sum_list_insert Pool.held _ _ _ q Hi) as Hsum.
  destruct e, p; simpl in Hstep; simplify_eq; simpl in *; try lia.
  specialize (Hacq eq_refl). lia.
Qed.

(** However the tasks interleave, the exchanges in flight are no more than
    the permits the semaphore was created with. *)
Lemma pool_in_flight_bounded k n c :
  rtc Pool.step (Pool.start k n) c →
  (Pool.permits c + Pool.permits_held c = k)%nat ∧ (Pool.in_flight c ≤ k)%nat.
Proof.
  intros Hrun.
  assert (Pool.permits c + Pool.permits_held c = k)%nat as Hinv.
  { revert c Hrun. apply rtc_ind_r.
    - assert (sum_list (Pool.held <$> replicate n Trace.Idle) = 0%nat) as Hzero.
      { induction n as [|n IHn]; [done|].
        change (replicate (S n) Trace.Idle) with (Trace.Idle :: replicate n Trace.Idle).
        rewrite fmap_cons. cbn [sum_list sum_list_with]. by rewrite IHn. }
      unfold Pool.start, Pool.permits_held. cbn [Pool.permits Pool.tasks].
      rewrite Hzero. lia.
    - intros c1 c2 _ Hstep IH. apply pool_step_permits in Hstep. lia. }
  split; [done|]. pose proof (pool_in_flight_le_held c). lia.
Qed.

End PoolFacts.

(** ** One permit for one exchange *)

Lemma run_app s t1 t2 :
  Bracket.run s (t1 ++ t2) =
  match Bracket.run s t1 with Some m => Bracket.run m t2 | None => None end.
Proof.
  revert s. induction t1 as [|e t IH]; intros s; cbn [app Bracket.run]; [done|].
  destruct (Bracket.step s e); [apply IH|done].
Qed.

(** What a trace the automaton accepts has taken, sent and left open, and
    where the counter stands, by the phases it goes between. *)
Lemma run_balance p c q c' t :
  Bracket.run (p, c) t = Some (q, c') →
  (Trace.permits_held t = Bracket.held q - Bracket.held p
   ∧ Trace.in_flight t = Bracket.open q - Bracket.open p
   ∧ Z.of_nat (Trace.count Trace.is_acquire t) - Z.of_nat (Trace.requests t)
     = Bracket.waiting q - Bracket.waiting p
   ∧ Z.of_nat c' + Bracket.held q = Z.of_nat c + Bracket.held p)%Z.
Proof.
  revert p c. induction t as [|e t IH]; intros p c; cbn [Bracket.run].
  - intros [= -> ->].
    unfold Trace.permits_held, Trace.in_flight, Trace.requests, Trace.count. simpl. lia.
  - destruct (Bracket.step (p, c) e) as [[m cm]|] eqn:Hs; [|discriminate]. intros Hq.
    destruct (IH _ _ Hq) as (Hh & Hf & Hw & Hc). revert Hh Hf Hw Hc.
    unfold Trace.permits_held, Trace.in_flight, Trace.requests, Trace.count.
    destruct e, p, c; simpl in Hs; simplify_eq; simpl; lia.
Qed.

(** What [Bracket.step] accepts, [Trace.step] accepts. *)
Lemma run_scan p c q c' t :
  Bracket.run (p, c) t = Some (q, c') →
  Trace.scan (Bracket.coarse p) t = Some (Bracket.coarse q).
Proof.
  revert p c. induction t as [|e t IH]; intros p c; cbn [Bracket.run Trace.scan].
  - by intros [= -> ->].
  - destruct (Bracket.step (p, c) e) as [[m cm]|] eqn:Hs; [|discriminate]. intros Hq.
    apply IH in Hq. rewrite <- Hq.
    destruct e, p, c; simpl in Hs; simplify_eq; reflexivity.
Qed.

(** At every point of an accepted trace that starts at rest. *)
Lemma run_prefix_bounds k k' t t' :
  Bracket.run (Bracket.Rest, k) t = Some (Bracket.Rest, k') → t' `prefix_of` t →
  ∃ p c, Bracket.run (Bracket.Rest, k) t' = Some (p, c)
         ∧ (Z.of_nat c + Trace.permits_held t' = Z.of_nat k)%Z
         ∧ (0 ≤ Trace.in_flight t' ≤ Trace.permits_held t' ∧ Trace.permits_held t' ≤ 1)%Z.
Proof.
  intros Hrun [rest ->]. rewrite run_app in Hrun.
  destruct (Bracket.run (Bracket.Rest, k) t') as [[p c]|] eqn:Hm; [|discriminate].
  exists p, c. split; [done|].
  destruct (run_balance _ _ _ _ _ Hm) as (-> & -> & _ & Hc).
  destruct p; simpl in *; lia.
Qed.

(** One permit does not cover two requests: the retry of a throttled request
    under the permit of the first attempt is refused. *)
Lemma second_request_needs_a_permit params free :
  Bracket.run (Bracket.Rest, S free)
    [EvAcquire; EvRequest params; EvResponse 429; EvSleep 2; EvExchangeEnd;
     EvRequest params; EvResponse 200; EvExchangeEnd; EvRelease] = None.
Proof. reflexivity. Qed.

(** With no permit left the acquire is refused, and so is a request without
    one. *)
Lemma request_needs_a_permit params :
  Bracket.run (Bracket.Rest, 0%nat) [EvAcquire; EvRequest params] = None
  ∧ ∀ free, Bracket.run (Bracket.Rest, free) [EvRequest params] = None.
Proof. done. Qed.

Section Brackets.
Context {W : Type} {services : World W} {python : PyRuntime}.

Lemma tracked_refl (st : run_state W) : Bracket.tracked st st.
Proof. exists []. by rewrite app_nil_r. Qed.

Lemma tracked_trans (st1 st2 st3 : run_state W) :
  Bracket.tracked st1 st2 → Bracket.tracked st2 st3 → Bracket.tracked st1 st3.
Proof.
  intros (e1 & Ht1 & Hr1) (e2 & Ht2 & Hr2). exists (e1 ++ e2).
  split; [by rewrite Ht2, Ht1, app_assoc|]. by rewrite run_app, Hr1.
Qed.

Lemma tracked_printing line (st : run_state W) : Bracket.tracked st (printing line st).
Proof. by exists [EvPrint line]. Qed.

(** The two operations of the semaphore are the two moves of the counter. *)
Lemma sem_acquire_step (st st' : run_state W) :
  sem_acquire st = (Ok tt, st') →
  trace st' = trace st ++ [EvAcquire]
  ∧ Bracket.step (Bracket.Rest, sem_value st) EvAcquire
    = Some (Bracket.Held, sem_value st').
Proof.
  unfold sem_acquire. destruct (sem_value st) as [|n]; [done|]. by intros [= <-].
Qed.

Lemma sem_release_step (st : run_state W) r st' :
  sem_release st = (r, st') →
  r = Ok tt ∧ trace st' = trace st ++ [EvRelease]
  ∧ Bracket.step (Bracket.Closed, sem_value st) EvRelease
    = Some (Bracket.Rest, sem_value st').
Proof. unfold sem_release. by intros [= <- <-]. Qed.

Lemma exchange_tracked page_title params retry_count (st : run_state W) r st' :
  exchange page_title params retry_count st = (r, st') → Bracket.tracked st st'.
Proof.
  rewrite exchange_eq. destruct (sem_value st) as [|n] eqn:Hn.
  { intros [= <- <-]. apply tracked_refl. }
  cbv zeta. intros Hrun. unfold Bracket.tracked. rewrite Hn.
  repeat case_match; simplify_eq;
    (eexists; split; [cbn [trace]; rewrite <- ?app_assoc; reflexivity | reflexivity]).
Qed.

Lemma retry_loop_tracked steps page_title params retry_count (st : run_state W) r st' :
  retry_loop steps page_title params retry_count st = (r, st') → Bracket.tracked st st'.
Proof.
  revert retry_count st. induction steps as [|steps IH]; intros retry_count st;
    rewrite retry_loop_eq; destruct (retry_count <? MAX_RETRIES)%nat;
    try (intros [= <- <-]; apply tracked_refl).
  unfold bind at 1.
  destruct (exchange page_title params retry_count st) as [[[data|rc]|e|] st1] eqn:Hex;
    apply exchange_tracked in Hex.
  - by intros [= <- <-].
  - intros Hrec. apply IH in Hrec. by eapply tracked_trans.
  - by intros [= <- <-].
  - by intros [= <- <-].
Qed.

Lemma paginate_tracked fuel page_title links params (st : run_state W) r st' :
  paginate fuel page_title links params st = (r, st') → Bracket.tracked st st'.
Proof.
  revert links params st. induction fuel as [|fuel IH]; intros links params st.
  - intros [= <- <-]. apply tracked_refl.
  - rewrite paginate_eq. unfold bind at 1.
    destruct (retry_loop MAX_RETRIES page_title params 0 st) as [[data|e|] st1] eqn:Hre;
      apply retry_loop_tracked in Hre.
    + destruct (continue_params data).
      * intros Hrec. apply IH in Hrec. by eapply tracked_trans.
      * by intros [= <- <-].
    + by intros [= <- <-].
    + by intros [= <- <-].
Qed.

Lemma get_links_from_page_tracked fuel page_title (st : run_state W) r st' :
  get_links_from_page fuel page_title st = (r, st') → Bracket.tracked st st'.
Proof.
  destruct (cache st !! page_title) as [links|] eqn:Hc.
  - rewrite (get_links_from_page_hit _ _ _ _ Hc). intros [= <- <-]. apply tracked_refl.
  - rewrite (get_links_from_page_miss _ _ _ Hc).
    destruct (paginate fuel page_title [] (initial_params page_title) st)
      as [[set|e|] st1] eqn:Hp; apply paginate_tracked in Hp; by intros [= <- <-].
Qed.

Lemma choose_next_link_tracked current target seen links (st : run_state W) r st' :
  choose_next_link current target seen links st = (r, st') → Bracket.tracked st st'.
Proof.
  unfold choose_next_link, generate_response, bind, print, emit, ret.
  cbn [world trace sem_value cache].
  destruct (generate_content (world st) (build_prompt current target seen links))
    as [[e|e|s] w']; cbn [world trace sem_value cache]; intros [= <- <-];
    (eexists; split; [cbn [trace]; rewrite <- ?app_assoc; reflexivity | reflexivity]).
Qed.

Lemma explore_iteration_tracked fuel target iteration vars (st : run_state W) r st' :
  explore_iteration fuel target iteration vars st = (r, st') → Bracket.tracked st st'.
Proof.
  intros Hrun.
  destruct (decide (normalize (current_page vars) = normalize target)) as [Heq|Hne].
  { rewrite explore_iteration_target in Hrun by done. simplify_eq. apply tracked_printing. }
  eapply tracked_trans; [apply (tracked_printing (pass_banner iteration vars))|].
  pose proof (explore_iteration_cases _ _ _ _ _ _ _ Hrun Hne) as Hc. cbv zeta in Hc.
  destruct (get_links_from_page fuel (current_page vars)
              (printing (pass_banner iteration vars) st))
    as [[[|first_link rest]|e|] st1] eqn:Hget;
    pose proof (get_links_from_page_tracked _ _ _ _ _ Hget) as Hfetch.
  - destruct Hc as [_ ->]. eapply tracked_trans; [done|apply tracked_printing].
  - destruct (choose_next_link (current_page vars) target (visited vars)
                (first_link :: rest) st1) as [[answer|e|] st2] eqn:Hch;
      pose proof (choose_next_link_tracked _ _ _ _ _ _ _ Hch) as Hasked.
    + rewrite (explore_iteration_move _ _ _ _ _ _ _ _ _ _ Hne Hget Hch) in Hrun.
      eapply tracked_trans; [done|]. eapply tracked_trans; [done|].
      destruct (decide (answer ∈ first_link :: rest)); simplify_eq.
      * apply tracked_printing.
      * eapply tracked_trans; [apply tracked_printing|].
        eapply tracked_trans; apply tracked_printing.
    + destruct Hc as [_ ->]. by eapply tracked_trans.
    + destruct Hc as [_ ->]. by eapply tracked_trans.
  - by destruct Hc as [_ ->].
  - by destruct Hc as [_ ->].
Qed.

Lemma explore_loop_tracked fuel target n iteration vars (st : run_state W) r st' :
  explore_loop fuel target n iteration vars st = (r, st') → Bracket.tracked st st'.
Proof.
  revert iteration vars st. induction n as [|n IH]; intros iteration vars st; simpl.
  - intros [= <- <-]. apply tracked_printing.
  - unfold bind at 1.
    destruct (explore_iteration fuel target iteration vars st) as [[[p|vars']|e|] st1] eqn:Hit;
      apply explore_iteration_tracked in Hit.
    + by intros [= <- <-].
    + intros Hrec. apply IH in Hrec. by eapply tracked_trans.
    + by intros [= <- <-].
    + by intros [= <- <-].
Qed.

End Brackets.
(** * The claims *)

Section Claims.
Context {W : Type} {services : World W} {python : PyRuntime}.

(** C1. In the path that [explore_path] returns, every element after the
    first belongs to the list that [get_links_from_page] computed for the
    element before it: the list the cache holds for that element at the end
    of the run, which a further call for it would hand back unchanged. *)
Theorem path_steps_follow_fetched_links fuel start target N (w : W) p st' :
  explore_path fuel start target N w = (Ok p, st') →
  ∀ i x y, p !! i = Some x → p !! S i = Some y →
    ∃ links, cache st' !! x = Some links
             ∧ get_links_from_page fuel x st' = (Ok links, st')
             ∧ y ∈ links.
Proof.
  intros Hrun i x y Hx Hy. unfold explore_path in Hrun.
  apply explore_loop_follows in Hrun.
  - destruct (Hrun i x y Hx Hy) as (links & Hc & Hin).
    exists links. split; [done|]. split; [|done].
    by apply get_links_from_page_hit.
  - intros [|j] a b; simpl; [|done]. by intros _ [=].
  - done.
Qed.

(** C2. When the start and the target page are equal once normalized
    ([strip], [lower], spaces to underscores) and at least one pass is
    allowed, [explore_path] returns the one-element path of the start page
    in its first pass: the world has not moved, no request was sent and the
    model was not called. So it is for "Pizza" and "Pizza" with 10 passes. *)
Theorem explore_from_the_target_returns_at_once fuel (w : W) :
  let st' := printing (Str.nl +:+ "Target page reached!") (initial_state w) in
  (∀ start target N,
      normalize start = normalize target → (1 ≤ N)%nat →
      explore_path fuel start target N w = (Ok [start], st'))
  ∧ explore_path fuel "Pizza" "Pizza" 10 w = (Ok ["Pizza"], st')
  ∧ world st' = w
  ∧ Trace.requests (trace st') = 0%nat
  ∧ Trace.oracle_calls (trace st') = 0%nat.
Proof.
  intros st'.
  assert (∀ start target N,
      normalize start = normalize target → (1 ≤ N)%nat →
      explore_path fuel start target N w = (Ok [start], st')) as Hgen.
  { intros start target [|N] Heq HN; [lia|].
    unfold explore_path. simpl. unfold bind at 1.
    by rewrite explore_iteration_target. }
  split; [done|]. split; [by apply Hgen; [|lia]|]. done.
Qed.

(** C3. In a pass where the model's answer is not in the list of links of
    the current page, the loop takes the first link of the list instead: it
    prints that the answer is not among the links and which link it
    defaults to, appends that link to the path and to the visited pages and
    makes it the current page. The pass ends normally, and the loop goes on
    with the next one. *)
Theorem rejected_answer_falls_back_to_first_link fuel target iteration vars
    (st st1 st2 : run_state W) first_link rest answer :
  normalize (current_page vars) ≠ normalize target →
  get_links_from_page fuel (current_page vars) (printing (pass_banner iteration vars) st)
    = (Ok (first_link :: rest), st1) →
  choose_next_link (current_page vars) target (visited vars) (first_link :: rest) st1
    = (Ok answer, st2) →
  answer ∉ first_link :: rest →
  let vars' := {| current_page := first_link; path := path vars ++ [first_link];
                  visited := visited vars ++ [first_link] |} in
  let st' := {| world := world st2;
                trace := trace st2 ++
                  [EvPrint ("Chosen link '" +:+ answer +:+ "' not in available links.");
                   EvPrint ("Defaulting to first available link: '" +:+ first_link +:+ "'.");
                   EvPrint ("Moving to: " +:+ first_link)];
                sem_value := sem_value st2; cache := cache st2 |} in
  explore_iteration fuel target iteration vars st = (Ok (Next vars'), st')
  ∧ ∀ n, explore_loop fuel target (S n) iteration vars st
         = explore_loop fuel target n (S iteration) vars' st'.
Proof.
  intros Hne Hget Hch Hnotin vars' st'.
  assert (explore_iteration fuel target iteration vars st = (Ok (Next vars'), st')) as Hit.
  { rewrite (explore_iteration_move _ _ _ _ _ _ _ _ _ _ Hne Hget Hch).
    rewrite decide_False by done. unfold printing, st'. simpl.
    by rewrite <- !app_assoc. }
  split; [done|]. intros n. simpl. unfold bind at 1. by rewrite Hit.
Qed.

(** C8. In a pass where the list of links of the current page is empty, the
    loop prints a notice and goes to the next pass: nothing is appended to
    the path, the model is not called, the variables of the loop are
    unchanged and the index of the pass goes up by one. *)
Theorem empty_link_list_stalls_the_pass fuel target iteration vars
    (st st1 : run_state W) :
  normalize (current_page vars) ≠ normalize target →
  get_links_from_page fuel (current_page vars) (printing (pass_banner iteration vars) st)
    = (Ok [], st1) →
  let st' := printing (stall_notice vars) st1 in
  explore_iteration fuel target iteration vars st = (Ok (Next vars), st')
  ∧ Trace.oracle_calls (trace st') = Trace.oracle_calls (trace st)
  ∧ ∀ n, explore_loop fuel target (S n) iteration vars st
         = explore_loop fuel target n (S iteration) vars st'.
Proof.
  intros Hne Hget st'.
  pose proof (explore_iteration_stall _ _ _ _ _ _ Hne Hget) as Hit.
  split; [done|]. split.
  - apply get_links_from_page_oracle_calls in Hget. unfold st', printing. simpl.
    rewrite oracle_calls_app, Hget. simpl. rewrite oracle_calls_app. simpl.
    unfold Trace.oracle_calls, Trace.count. simpl. lia.
  - intros n. simpl. unfold bind at 1. by rewrite Hit.
Qed.

(** C9. Once a pass has found no link on the current page, and that page
    is not the target, the current page never changes again: each of the
    passes left reads the empty list back from the cache and stalls, without
    a request or a call of the model, and [explore_path] returns the path as
    it was at the first stall, through the lines after the loop. *)
Theorem first_stall_freezes_the_path fuel target iteration vars
    (st st1 : run_state W) n :
  normalize (current_page vars) ≠ normalize target →
  get_links_from_page fuel (current_page vars) (printing (pass_banner iteration vars) st)
    = (Ok [], st1) →
  (∀ k, ∃ st_k,
      run_passes fuel target k (S iteration) vars (printing (stall_notice vars) st1)
      = Some (vars, st_k)
      ∧ world st_k = world st1 ∧ cache st_k = cache st1
      ∧ ∃ evs, trace st_k = trace st1 ++ evs
               ∧ Forall (fun e => Trace.is_print e = true) evs)
  ∧ ∃ st_n,
      run_passes fuel target (S n) iteration vars st = Some (vars, st_n)
      ∧ explore_loop fuel target (S n) iteration vars st
        = (Ok (path vars), printing budget_notice st_n)
      ∧ world st_n = world st1 ∧ cache st_n = cache st1.
Proof.
  intros Hne Hget.
  pose proof (get_links_from_page_cached _ _ _ _ _ Hget) as Hc.
  pose proof (explore_iteration_stall _ _ _ _ _ _ Hne Hget) as Hit.
  assert (∀ k, ∃ st_k,
      run_passes fuel target k (S iteration) vars (printing (stall_notice vars) st1)
      = Some (vars, st_k)
      ∧ world st_k = world st1 ∧ cache st_k = cache st1
      ∧ ∃ evs, trace st_k = trace st1 ++ evs
               ∧ Forall (fun e => Trace.is_print e = true) evs) as Hall.
  { intros k.
    destruct (run_passes_stalled fuel target k (S iteration) vars
                (printing (stall_notice vars) st1) Hne Hc)
      as (st_k & Hrun & Hw & Hca & _ & evs & Ht & Hp).
    exists st_k. repeat split; try done.
    exists (EvPrint (stall_notice vars) :: evs). split.
    - rewrite Ht. simpl. by rewrite <- app_assoc.
    - by constructor. }
  split; [done|].
  destruct (Hall n) as (st_n & Hrun & Hw & Hca & _).
  exists st_n.
  assert (run_passes fuel target (S n) iteration vars st = Some (vars, st_n)) as Hrun'.
  { simpl. by rewrite Hit. }
  split; [done|]. split; [|done].
  by apply run_passes_explore_loop.
Qed.

(** C6. The path that [explore_path] returns has at most
    [max_iterations + 1] elements. When all [max_iterations] passes go by
    without reaching the target, [explore_path] returns the path they have
    built as its value; an exception that ends a run is one raised by a
    fetch or by the model, never by the end of the budget. *)
Theorem path_length_within_budget fuel start target N (w : W) :
  (∀ p st', explore_path fuel start target N w = (Ok p, st') →
            (length p ≤ N + 1)%nat)
  ∧ (∀ vars st_N,
        run_passes fuel target N 0 (initial_locals start) (initial_state w)
        = Some (vars, st_N) →
        explore_path fuel start target N w
        = (Ok (path vars), printing budget_notice st_N)
        ∧ (length (path vars) ≤ N + 1)%nat)
  ∧ (∀ e st', explore_path fuel start target N w = (Raise e, st') →
        (∃ page st0, get_links_from_page fuel page st0 = (Raise e, st'))
        ∨ (∃ current seen links st1,
              choose_next_link current target seen links st1 = (Raise e, st'))).
Proof.
  assert (∀ p st', explore_path fuel start target N w = (Ok p, st') →
                   (length p ≤ N + 1)%nat) as Hlen.
  { intros p st' Hrun. apply explore_loop_length in Hrun. simpl in Hrun. lia. }
  split; [done|]. split.
  - intros vars st_N Hrun. apply run_passes_explore_loop in Hrun.
    split; [done|]. by eapply Hlen.
  - intros e st'. apply explore_loop_raise.
Qed.

(** C7. A call of [get_links_from_page] for a title that the cache holds
    returns the stored list and leaves the whole state as it was: no request
    is sent. The entry stays what it is through any later fetch and through
    the rest of the run; and after a call for a title has returned, calling
    again gives the same list without a request. *)
Theorem cached_fetch_is_silent_and_stable fuel page_title links (st : run_state W) :
  cache st !! page_title = Some links →
  get_links_from_page fuel page_title st = (Ok links, st)
  ∧ (∀ fuel' other r st',
        get_links_from_page fuel' other st = (r, st') →
        cache st' !! page_title = Some links)
  ∧ (∀ fuel' target n iteration vars r st',
        explore_loop fuel' target n iteration vars st = (r, st') →
        cache st' !! page_title = Some links
        ∧ get_links_from_page fuel page_title st' = (Ok links, st'))
  ∧ (∀ fuel' title found st',
        get_links_from_page fuel' title st = (Ok found, st') →
        get_links_from_page fuel title st' = (Ok found, st')).
Proof.
  intros Hc. split; [by apply get_links_from_page_hit|]. split; [|split].
  - intros fuel' other r st' Hrun.
    apply get_links_from_page_evolves in Hrun as (_ & Hsub & _).
    by eapply lookup_weaken.
  - intros fuel' target n iteration vars r st' Hrun.
    apply explore_loop_evolves in Hrun as (_ & Hsub & _).
    assert (cache st' !! page_title = Some links) by (by eapply lookup_weaken).
    split; [done|]. by apply get_links_from_page_hit.
  - intros fuel' title found st' Hrun.
    apply get_links_from_page_hit. by eapply get_links_from_page_cached.
Qed.

(** C10. Every exchange of a run has a permit of its own. In every run of
    [explore_path], whatever its outcome, the events come as the automaton
    [Bracket.step] accepts them, started at rest with the 5 permits of the
    semaphore: a request is sent only right after an acquire, and once its
    exchange has ended, a throttled one as well, the permit is released
    before anything else happens, so a retry and a further page take a new
    permit; the run has as many acquires and as many releases as requests.
    At every point of the run the counter of the semaphore and the permits
    held add up to 5, the exchanges in flight are no more than the permits
    held, at most one as the run is one task, hence never more than 5, and
    the semaphore is back at 5 at the end. The same holds from any state of
    the loop with the size of its semaphore in the place of 5, so with no
    permit left nothing is in flight; and the counter the automaton reads
    is the one [sem_acquire] and [sem_release] move, an acquire on an empty
    semaphore not returning. *)
Theorem in_flight_exchanges_within_permits fuel start target N (w : W) r st' :
  explore_path fuel start target N w = (r, st') →
  (Bracket.run (Bracket.Rest, 5%nat) (trace st') = Some (Bracket.Rest, 5%nat)
   ∧ sem_value st' = 5%nat
   ∧ Trace.count Trace.is_acquire (trace st') = Trace.requests (trace st')
   ∧ Trace.count Trace.is_release (trace st') = Trace.requests (trace st')
   ∧ Trace.count Trace.is_exchange_end (trace st') = Trace.requests (trace st')
   ∧ ∀ t, t `prefix_of` trace st' →
       ∃ p free, Bracket.run (Bracket.Rest, 5%nat) t = Some (p, free)
         ∧ (Z.of_nat free + Trace.permits_held t = 5)%Z
         ∧ (0 ≤ Trace.in_flight t ≤ Trace.permits_held t)%Z
         ∧ (Trace.permits_held t ≤ 1)%Z
         ∧ (Trace.in_flight t ≤ 5)%Z)
  ∧ (∀ fuel' target' n iteration vars (st1 st2 : run_state W) r',
        explore_loop fuel' target' n iteration vars st1 = (r', st2) →
        ∃ evs, trace st2 = trace st1 ++ evs
          ∧ Bracket.run (Bracket.Rest, sem_value st1) evs
            = Some (Bracket.Rest, sem_value st2)
          ∧ sem_value st2 = sem_value st1
          ∧ ∀ t, t `prefix_of` evs →
              ∃ p free, Bracket.run (Bracket.Rest, sem_value st1) t = Some (p, free)
                ∧ (Z.of_nat free + Trace.permits_held t = Z.of_nat (sem_value st1))%Z
                ∧ (0 ≤ Trace.in_flight t ≤ Trace.permits_held t)%Z
                ∧ (Trace.in_flight t ≤ Z.of_nat (sem_value st1))%Z)
  ∧ (∀ (st1 st2 : run_state W) r',
        sem_acquire st1 = (r', st2) →
        match r' with
        | Ok _ => trace st2 = trace st1 ++ [EvAcquire]
                  ∧ Bracket.step (Bracket.Rest, sem_value st1) EvAcquire
                    = Some (Bracket.Held, sem_value st2)
        | _ => r' = NoReturn ∧ sem_value st1 = 0%nat ∧ st2 = st1
        end)
  ∧ (∀ (st1 st2 : run_state W) r',
        sem_release st1 = (r', st2) →
        r' = Ok tt ∧ trace st2 = trace st1 ++ [EvRelease]
        ∧ Bracket.step (Bracket.Closed, sem_value st1) EvRelease
          = Some (Bracket.Rest, sem_value st2)).
Proof.
  intros Hrun. split; [|split; [|split]].
  - unfold explore_path in Hrun.
    apply explore_loop_tracked in Hrun as (evs & Ht & Hr).
    cbn [initial_state trace sem_value app] in Ht, Hr. subst evs.
    destruct (run_balance _ _ _ _ _ Hr) as (Hh & Hf & Hw & Hc).
    assert (sem_value st' = 5%nat) as Hs by (simpl in Hc; lia).
    rewrite Hs in Hr. unfold Trace.permits_held, Trace.in_flight in Hh, Hf.
    fold (Trace.requests (trace st')) in Hf. simpl in Hh, Hf, Hw.
    split; [done|]. split; [done|]. split; [lia|]. split; [lia|]. split; [lia|].
    intros t Hpre. destruct (run_prefix_bounds _ _ _ _ Hr Hpre) as (p & c & Hp & Hk & Hb).
    exists p, c. split; [done|]. lia.
  - intros fuel' target' n iteration vars st1 st2 r' Hloop.
    apply explore_loop_tracked in Hloop as (evs & Ht & Hr).
    exists evs. split; [done|]. split; [done|].
    destruct (run_balance _ _ _ _ _ Hr) as (_ & _ & _ & Hc).
    assert (sem_value st2 = sem_value st1) as Hs by (simpl in Hc; lia).
    split; [done|]. rewrite Hs in Hr.
    intros t Hpre. destruct (run_prefix_bounds _ _ _ _ Hr Hpre) as (p & c & Hp & Hk & Hb).
    exists p, c. split; [done|]. lia.
  - intros st1 st2 r'. unfold sem_acquire.
    destruct (sem_value st1) as [|k]; by intros [= <- <-].
  - intros st1 st2 r'. unfold sem_release. by intros [= <- <-].
Qed.

(** C5. For one request of a fetch: each answer with status 429 makes the
    task sleep 2 to the power of the attempt, the attempts counted from 1,
    and the same request is sent again; after 5 such answers in a row the
    fetch raises the exception of the exceeded retries, so also when the
    source would give 6 of them; 4 such answers followed by a success let
    the fetch return, with its result in the cache. *)
Theorem throttling_backoff_and_retry_ceiling fuel page_title (st : run_state W) :
  sem_value st ≠ 0%nat →
  (∀ params k w1 response w2 data,
      (k < MAX_RETRIES)%nat →
      throttles k (world st) params = Some w1 →
      http_get w1 params = (inr response, w2) →
      status response = 200%Z → json_body response = Some data →
      let evs := flat_map (throttled_exchange page_title params) (seq 1 k)
                 ++ successful_exchange params in
      retry_loop MAX_RETRIES page_title params 0 st
      = (Ok data, {| world := w2; trace := trace st ++ evs;
                     sem_value := sem_value st; cache := cache st |})
      ∧ Trace.sleeps evs = map (Nat.pow 2) (seq 1 k)
      ∧ Trace.requests evs = S k
      ∧ Forall (fun e => match e with EvRequest q => q = params | _ => True end) evs)
  ∧ (∀ params k w',
        (MAX_RETRIES ≤ k)%nat →
        throttles k (world st) params = Some w' →
        ∃ w5,
          throttles MAX_RETRIES (world st) params = Some w5
          ∧ let evs := flat_map (throttled_exchange page_title params) (seq 1 MAX_RETRIES) in
            let st' := {| world := w5; trace := trace st ++ evs;
                          sem_value := sem_value st; cache := cache st |} in
            retry_loop MAX_RETRIES page_title params 0 st
            = (Raise (MaxRetriesExceeded page_title), st')
            ∧ (∀ links, paginate (S fuel) page_title links params st
                        = (Raise (MaxRetriesExceeded page_title), st'))
            ∧ Trace.sleeps evs = [2; 4; 8; 16; 32]%nat
            ∧ Trace.requests evs = 5%nat)
  ∧ (cache st !! page_title = None →
     ∀ w', throttles 6 (world st) (initial_params page_title) = Some w' →
     ∃ st', get_links_from_page (S fuel) page_title st
            = (Raise (MaxRetriesExceeded page_title), st')
            ∧ cache st' = cache st)
  ∧ (cache st !! page_title = None →
     ∀ w1 response w2 data,
       throttles 4 (world st) (initial_params page_title) = Some w1 →
       http_get w1 (initial_params page_title) = (inr response, w2) →
       status response = 200%Z → json_body response = Some data →
       continue_params data = None →
       ∃ links st' evs,
         get_links_from_page (S fuel) page_title st = (Ok links, st')
         ∧ cache st' = <[page_title := links]> (cache st)
         ∧ world st' = w2
         ∧ trace st' = trace st ++ evs
         ∧ Trace.sleeps evs = [2; 4; 8; 16]%nat
         ∧ Trace.requests evs = 5%nat).
Proof.
  intros Hsem. split; [|split; [|split]].
  - intros params k w1 response w2 data Hk Hthr Hget Hst Hbody evs.
    split; [by eapply retry_loop_recovers|]. unfold evs. split; [|split].
    + rewrite sleeps_app, sleeps_throttled. simpl. by rewrite app_nil_r.
    + unfold Trace.requests. rewrite count_app.
      pose proof (requests_throttled page_title params (seq 1 k)) as Hr.
      unfold Trace.requests in Hr. rewrite Hr, length_seq.
      unfold Trace.count, successful_exchange. simpl. lia.
    + apply Forall_app. split; [apply requests_same_params|]. by repeat constructor.
  - intros params k w' Hk Hthr.
    destruct (throttles_le _ MAX_RETRIES _ _ _ Hthr Hk) as (w5 & H5).
    exists w5. split; [done|]. intros evs st'.
    pose proof (retry_loop_gives_up page_title params st w5 Hsem H5) as Hloop.
    split; [done|]. split; [|split].
    + intros links. rewrite paginate_eq. unfold bind at 1. by rewrite Hloop.
    + unfold evs. by rewrite sleeps_throttled.
    + unfold evs. by rewrite requests_throttled.
  - intros Hc w' Hthr.
    destruct (throttles_le _ MAX_RETRIES _ _ _ Hthr ltac:(unfold MAX_RETRIES; lia))
      as (w5 & H5).
    pose proof (retry_loop_gives_up page_title (initial_params page_title) st w5 Hsem H5)
      as Hloop.
    eexists. rewrite (get_links_from_page_miss _ _ _ Hc), paginate_eq.
    unfold bind at 1. rewrite Hloop. split; reflexivity.
  - intros Hc w1 response w2 data Hthr Hget Hst Hbody Hcont.
    pose proof (retry_loop_recovers 4 page_title (initial_params page_title) st
                  w1 response w2 data Hsem ltac:(unfold MAX_RETRIES; lia)
                  Hthr Hget Hst Hbody) as Hloop.
    eexists _, _, _. rewrite (get_links_from_page_miss _ _ _ Hc), paginate_eq.
    unfold bind at 1. rewrite Hloop, Hcont. unfold ret. cbv zeta.
    split; [reflexivity|]. split; [reflexivity|]. split; [reflexivity|].
    split; [reflexivity|]. split; reflexivity.
Qed.

(** C4 (as the code has it). A list that [get_links_from_page] returns
    holds no title that starts with one of the twelve prefixes of line 80:
    Help:, Template:, Wikipedia:, Catégorie:, Category:, Portail:, Aide:,
    Modèle:, Discussion:, Fichier:, File: and Wikipédia:. The loop that
    removes them never fails, and what is left is the titles of the set
    that start with none of them, all of them, in the order the set is
    listed; the lists in the cache are such lists too. *)
Theorem fetched_links_have_no_denylisted_prefix fuel page_title (st : run_state W) links st' :
  get_links_from_page fuel page_title st = (Ok links, st') →
  cache_filtered (cache st) →
  (∀ link, link ∈ links → ∀ p, p ∈ denylist → Str.startswith link p = false)
  ∧ cache_filtered (cache st')
  ∧ (∀ raw, remove_denied raw raw = Some (List.filter kept raw))
  ∧ (cache st !! page_title = None →
     ∃ set st1, paginate fuel page_title [] (initial_params page_title) st = (Ok set, st1)
                ∧ links = List.filter kept (set_iter set)
                ∧ ∀ link, link ∈ links ↔ link ∈ set ∧ denied link = false).
Proof.
  intros Hrun Hclean.
  destruct (get_links_from_page_filtered _ _ _ _ _ Hrun Hclean) as [Hall Hclean'].
  split; [|split; [done|split; [apply remove_denied_self|]]].
  - intros link Hin. apply denied_false_prefix.
    rewrite Forall_forall in Hall. by apply Hall.
  - intros Hc. rewrite (get_links_from_page_miss _ _ _ Hc) in Hrun.
    destruct (paginate fuel page_title [] (initial_params page_title) st)
      as [[set|e|] st1] eqn:Hp; [|done..]. cbv zeta in Hrun. simplify_eq.
    exists set, st1. split; [done|]. split; [done|].
    intros link. rewrite elem_of_filter_kept.
    apply paginate_NoDup in Hp; [|constructor].
    by rewrite (set_iter_perm set Hp).
Qed.

End Claims.

(** * The claims on sample runs *)

Section SampleRuns.
Import Sample.

Lemma cache_filtered_empty : cache_filtered (∅ : gmap string (list string)).
Proof. intros k links Hk. by rewrite lookup_empty in Hk. Qed.

(** From "Pizza" towards "Chocolate": the step to "Tomato" is in the list
    fetched for "Pizza". *)
Lemma pizza_step_follows_fetched_links :
  ∃ links,
    cache pizza_final !! "Pizza" = Some links
    ∧ get_links_from_page 3 "Pizza" pizza_final = (Ok links, pizza_final)
    ∧ "Tomato" ∈ links.
Proof.
  refine (path_steps_follow_fetched_links 3 "Pizza" "Chocolate" 4 pizza_world
            ["Pizza"; "Tomato"] pizza_final _ 0 "Pizza" "Tomato" _ _).
  - vm_compute. reflexivity.
  - reflexivity.
  - reflexivity.
Defined.

(** " piZZa " is the page "Pizza" once normalized. *)
Lemma pizza_reached_at_once :
  explore_path 3 "Pizza" " piZZa " 4 pizza_world
  = (Ok ["Pizza"],
     printing (Str.nl +:+ "Target page reached!") (initial_state pizza_world)).
Proof.
  refine (proj1 (explore_from_the_target_returns_at_once 3 pizza_world)
            "Pizza" " piZZa " 4 _ _).
  - vm_compute. reflexivity.
  - lia.
Defined.

(** The model answers "Bread", the links are "Cheese" and "Tomato". *)
Lemma stray_answer_falls_back :
  explore_iteration 3 "Chocolate" 0 pizza_vars (initial_state stray_world)
  = (Ok (Next {| current_page := "Cheese"; path := path pizza_vars ++ ["Cheese"];
                 visited := visited pizza_vars ++ ["Cheese"] |}),
     {| world := world stray_answered;
        trace := trace stray_answered ++
          [EvPrint ("Chosen link '" +:+ "Bread" +:+ "' not in available links.");
           EvPrint ("Defaulting to first available link: '" +:+ "Cheese" +:+ "'.");
           EvPrint ("Moving to: " +:+ "Cheese")];
        sem_value := sem_value stray_answered; cache := cache stray_answered |}).
Proof.
  refine (proj1 (rejected_answer_falls_back_to_first_link
    3 "Chocolate" 0 pizza_vars (initial_state stray_world) stray_fetched stray_answered
    "Cheese" ["Tomato"] "Bread" _ _ _ _)).
  - vm_compute. discriminate.
  - vm_compute. reflexivity.
  - vm_compute. reflexivity.
  - refine (bool_decide_unpack _ _). vm_compute. exact I.
Defined.

(** The links of "Pizza" in [pizza_world]: the Help and Catégorie titles
    are gone. *)
Lemma pizza_links_have_no_denylisted_prefix :
  (∀ link, link ∈ ["Portal:Food"; "Tomato"; "Talk:Pizza"] →
           ∀ p, p ∈ denylist → Str.startswith link p = false)
  ∧ cache_filtered (cache pizza_fetched)
  ∧ (∀ raw, remove_denied raw raw = Some (List.filter kept raw))
  ∧ (cache (initial_state pizza_world) !! "Pizza" = None →
     ∃ set st1,
       paginate 3 "Pizza" [] (initial_params "Pizza") (initial_state pizza_world)
       = (Ok set, st1)
       ∧ ["Portal:Food"; "Tomato"; "Talk:Pizza"] = List.filter kept (set_iter set)
       ∧ ∀ link, link ∈ ["Portal:Food"; "Tomato"; "Talk:Pizza"]
                 ↔ link ∈ set ∧ denied link = false).
Proof.
  refine (fetched_links_have_no_denylisted_prefix 3 "Pizza"
            (initial_state pizza_world)
            ["Portal:Food"; "Tomato"; "Talk:Pizza"] pizza_fetched _ _).
  - vm_compute. reflexivity.
  - apply cache_filtered_empty.
Defined.

(** C4 as it is worded fails: with the talk and portal namespaces in their
    English form among the reserved prefixes, the titles "Talk:Pizza" and
    "Portal:Food" should not be returned. The fetch of "Pizza" in
    [pizza_world], from an empty cache, returns them. *)
Lemma talk_and_portal_titles_pass_the_filter :
  get_links_from_page 3 "Pizza" (initial_state pizza_world)
  = (Ok ["Portal:Food"; "Tomato"; "Talk:Pizza"], pizza_fetched)
  ∧ "Talk:" ∈ namespaces_in_both_forms
  ∧ Str.startswith "Talk:Pizza" "Talk:" = true
  ∧ "Portal:" ∈ namespaces_in_both_forms
  ∧ Str.startswith "Portal:Food" "Portal:" = true.
Proof.
  split; [vm_compute; reflexivity|].
  split; [refine (bool_decide_unpack _ _); vm_compute; exact I|].
  split; [reflexivity|].
  split; [refine (bool_decide_unpack _ _); vm_compute; exact I|].
  reflexivity.
Qed.

(** Four throttled answers, then the links of "Pizza". *)
Lemma four_throttled_answers_then_links :
  ∃ links st' evs,
    get_links_from_page 1 "Pizza" (initial_state (throttled_world 4)) = (Ok links, st')
    ∧ cache st' = <["Pizza" := links]> (cache (initial_state (throttled_world 4)))
    ∧ world st' = {| replies := []; answers := [] |}
    ∧ trace st' = trace (initial_state (throttled_world 4)) ++ evs
    ∧ Trace.sleeps evs = [2; 4; 8; 16]%nat
    ∧ Trace.requests evs = 5%nat.
Proof.
  refine (proj2 (proj2 (proj2 (throttling_backoff_and_retry_ceiling 0 "Pizza"
            (initial_state (throttled_world 4)) _))) _
            {| replies := [page_reply ["Tomato"]]; answers := [] |}
            {| status := 200;
               json_body := Some {| query_pages := [("1", Some ["Tomato"])];
                                    continue_params := None |} |}
            {| replies := []; answers := [] |}
            {| query_pages := [("1", Some ["Tomato"])]; continue_params := None |}
            _ _ _ _ _).
  - simpl. lia.
  - reflexivity.
  - vm_compute. reflexivity.
  - reflexivity.
  - reflexivity.
  - reflexivity.
  - reflexivity.
Defined.

(** The start page has no link and three passes are allowed. *)
Lemma dead_end_returns_the_start_page :
  explore_path 3 "Pizza" "Chocolate" 3 dead_end_world
  = (Ok (path pizza_vars), printing budget_notice dead_end_passed)
  ∧ (length (path pizza_vars) ≤ 3 + 1)%nat.
Proof.
  refine (proj1 (proj2 (path_length_within_budget 3 "Pizza" "Chocolate" 3 dead_end_world))
            pizza_vars dead_end_passed _).
  vm_compute. reflexivity.
Defined.

(** The list fetched for "Pizza" is read back from the cache. *)
Lemma pizza_links_come_back_from_the_cache :
  get_links_from_page 0 "Pizza" pizza_fetched
  = (Ok ["Portal:Food"; "Tomato"; "Talk:Pizza"], pizza_fetched).
Proof.
  refine (proj1 (cached_fetch_is_silent_and_stable 0 "Pizza"
                   ["Portal:Food"; "Tomato"; "Talk:Pizza"] pizza_fetched _)).
  vm_compute. reflexivity.
Defined.

(** The first pass on a start page without links. *)
Lemma dead_end_pass_stalls :
  explore_iteration 3 "Chocolate" 0 pizza_vars (initial_state dead_end_world)
  = (Ok (Next pizza_vars), printing (stall_notice pizza_vars) dead_end_fetched).
Proof.
  refine (proj1 (empty_link_list_stalls_the_pass 3 "Chocolate" 0 pizza_vars
                   (initial_state dead_end_world) dead_end_fetched _ _)).
  - vm_compute. discriminate.
  - vm_compute. reflexivity.
Defined.

(** The passes after the first stall, whatever their number, and the run
    of three passes. *)
Lemma dead_end_passes_all_stall :
  (∀ k, ∃ st_k,
      run_passes 3 "Chocolate" k 1 pizza_vars
        (printing (stall_notice pizza_vars) dead_end_fetched)
      = Some (pizza_vars, st_k)
      ∧ world st_k = world dead_end_fetched ∧ cache st_k = cache dead_end_fetched
      ∧ ∃ evs, trace st_k = trace dead_end_fetched ++ evs
               ∧ Forall (fun e => Trace.is_print e = true) evs)
  ∧ ∃ st_n,
      run_passes 3 "Chocolate" 3 0 pizza_vars (initial_state dead_end_world)
      = Some (pizza_vars, st_n)
      ∧ explore_loop 3 "Chocolate" 3 0 pizza_vars (initial_state dead_end_world)
        = (Ok (path pizza_vars), printing budget_notice st_n)
      ∧ world st_n = world dead_end_fetched ∧ cache st_n = cache dead_end_fetched.
Proof.
  refine (first_stall_freezes_the_path 3 "Chocolate" 0 pizza_vars
            (initial_state dead_end_world) dead_end_fetched 2 _ _).
  - vm_compute. discriminate.
  - vm_compute. reflexivity.
Defined.

(** The run from "Pizza" towards "Chocolate": a throttled attempt, a retry
    and the fetch of "Tomato". *)
Lemma pizza_run_keeps_within_permits :
  Bracket.run (Bracket.Rest, 5%nat) (trace pizza_final) = Some (Bracket.Rest, 5%nat)
  ∧ sem_value pizza_final = 5%nat
  ∧ Trace.count Trace.is_acquire (trace pizza_final) = Trace.requests (trace pizza_final)
  ∧ Trace.count Trace.is_release (trace pizza_final) = Trace.requests (trace pizza_final)
  ∧ Trace.count Trace.is_exchange_end (trace pizza_final)
    = Trace.requests (trace pizza_final)
  ∧ ∀ t, t `prefix_of` trace pizza_final →
      ∃ p free, Bracket.run (Bracket.Rest, 5%nat) t = Some (p, free)
        ∧ (Z.of_nat free + Trace.permits_held t = 5)%Z
        ∧ (0 ≤ Trace.in_flight t ≤ Trace.permits_held t)%Z
        ∧ (Trace.permits_held t ≤ 1)%Z
        ∧ (Trace.in_flight t ≤ 5)%Z.
Proof.
  refine (proj1 (in_flight_exchanges_within_permits 3 "Pizza" "Chocolate" 4 pizza_world
                   (Ok ["Pizza"; "Tomato"]) pizza_final _)).
  vm_compute. reflexivity.
Defined.

End SampleRuns.

(** * More properties of the loop *)

Section LoopShape.
Context {W : Type} {services : World W} {python : PyRuntime}.

Lemma choose_next_link_oracle_calls current target seen links (st : run_state W) answer st' :
  choose_next_link current target seen links st = (Ok answer, st') →
  Trace.oracle_calls (trace st') = S (Trace.oracle_calls (trace st)).
Proof.
  unfold choose_next_link, generate_response, bind, print, emit, ret.
  cbn [world trace sem_value cache].
  destruct (generate_content (world st) (build_prompt current target seen links))
    as [[e|e|s] w']; [done|done|].
  intros [= <- <-]. cbn [trace]. rewrite <- !app_assoc, oracle_calls_app.
  unfold Trace.oracle_calls at 2, Trace.count.
  cbn [app List.filter Trace.is_generate length]. lia.
Qed.

Lemma oracle_calls_printing line (st : run_state W) :
  Trace.oracle_calls (trace (printing line st)) = Trace.oracle_calls (trace st).
Proof.
  unfold printing. cbn [trace]. rewrite oracle_calls_app.
  unfold Trace.oracle_calls at 2, Trace.count. cbn. lia.
Qed.

(** The keys of the cache after a fetch: those it had, and the title fetched. *)
Lemma get_links_from_page_keys fuel page_title (st : run_state W) r st' k :
  get_links_from_page fuel page_title st = (r, st') →
  is_Some (cache st' !! k) → is_Some (cache st !! k) ∨ k = page_title.
Proof.
  destruct (cache st !! page_title) as [links|] eqn:Hc.
  - rewrite (get_links_from_page_hit _ _ _ _ Hc). intros [= <- <-]. by left.
  - rewrite (get_links_from_page_miss _ _ _ Hc).
    destruct (paginate fuel page_title [] (initial_params page_title) st)
      as [[set|e|] st1] eqn:Hp; apply paginate_quiet in Hp as (_ & Hca & _);
      intros [= <- <-]; cbn [cache]; rewrite ?Hca; [|by left..].
    destruct (decide (k = page_title)) as [->|Hne]; [by right|].
    rewrite lookup_insert_ne by done. by left.
Qed.

(** What a pass that goes on has done. *)
Lemma explore_iteration_step fuel target iteration vars (st : run_state W) vars' st' :
  explore_iteration fuel target iteration vars st = (Ok (Next vars'), st') →
  normalize (current_page vars) ≠ normalize target
  ∧ (∀ k, is_Some (cache st' !! k) → is_Some (cache st !! k) ∨ k = current_page vars)
  ∧ ((vars' = vars ∧ Trace.oracle_calls (trace st') = Trace.oracle_calls (trace st))
     ∨ ∃ chosen,
         vars' = {| current_page := chosen; path := path vars ++ [chosen];
                    visited := visited vars ++ [chosen] |}
         ∧ Trace.oracle_calls (trace st') = S (Trace.oracle_calls (trace st))).
Proof.
  intros Hrun.
  destruct (decide (normalize (current_page vars) = normalize target)) as [Heq|Hne].
  { rewrite explore_iteration_target in Hrun by done. by simplify_eq. }
  split; [done|].
  destruct (get_links_from_page fuel (current_page vars)
              (printing (pass_banner iteration vars) st))
    as [[[|first_link rest]|e|] st1] eqn:Hget.
  - rewrite (explore_iteration_stall _ _ _ _ _ _ Hne Hget) in Hrun. simplify_eq.
    split.
    + intros k Hk. by eapply get_links_from_page_keys in Hget.
    + left. split; [done|]. rewrite oracle_calls_printing.
      apply get_links_from_page_oracle_calls in Hget. rewrite Hget.
      apply oracle_calls_printing.
  - destruct (choose_next_link (current_page vars) target (visited vars)
                (first_link :: rest) st1) as [[answer|e|] st2] eqn:Hch.
    + rewrite (explore_iteration_move _ _ _ _ _ _ _ _ _ _ Hne Hget Hch) in Hrun.
      pose proof (choose_next_link_oracle_calls _ _ _ _ _ _ _ Hch) as Hcalls.
      pose proof (get_links_from_page_oracle_calls _ _ _ _ _ Hget) as Hfetch.
      rewrite oracle_calls_printing in Hfetch.
      pose proof (choose_next_link_quiet _ _ _ _ _ _ _ Hch) as (_ & Hca & _).
      assert (∀ k, is_Some (cache st2 !! k) →
                   is_Some (cache st !! k) ∨ k = current_page vars) as Hkeys.
      { intros k Hk. rewrite Hca in Hk. by eapply get_links_from_page_keys in Hget. }
      destruct (decide (answer ∈ first_link :: rest)); simplify_eq.
      * split; [done|]. right. exists answer. split; [done|].
        rewrite oracle_calls_printing. congruence.
      * split; [done|]. right. exists first_link. split; [done|].
        rewrite !oracle_calls_printing. congruence.
    + pose proof (explore_iteration_cases _ _ _ _ _ _ _ Hrun Hne) as Hc.
      cbv zeta in Hc. rewrite Hget, Hch in Hc. by destruct Hc.
    + pose proof (explore_iteration_cases _ _ _ _ _ _ _ Hrun Hne) as Hc.
      cbv zeta in Hc. rewrite Hget, Hch in Hc. by destruct Hc.
  - pose proof (explore_iteration_cases _ _ _ _ _ _ _ Hrun Hne) as Hc.
    cbv zeta in Hc. rewrite Hget in Hc. by destruct Hc.
  - pose proof (explore_iteration_cases _ _ _ _ _ _ _ Hrun Hne) as Hc.
    cbv zeta in Hc. rewrite Hget in Hc. by destruct Hc.
Qed.

(** A property of the variables and the state that the passes keep, and
    that printing a line keeps, holds when the loop returns, of the path
    returned. *)
Lemma explore_loop_keeps (I : locals → run_state W → Prop) fuel target :
  (∀ iteration vars st vars' st',
      I vars st →
      explore_iteration fuel target iteration vars st = (Ok (Next vars'), st') →
      I vars' st') →
  (∀ line vars st, I vars st → I vars (printing line st)) →
  ∀ n iteration vars st p st',
    explore_loop fuel target n iteration vars st = (Ok p, st') →
    I vars st →
    ∃ vars_end, path vars_end = p ∧ I vars_end st'.
Proof.
  intros Hpass Hprint. induction n as [|n IH]; intros iteration vars st p st'; simpl.
  - intros [= <- <-] HI. exists vars. split; [done|]. by apply Hprint.
  - unfold bind at 1.
    destruct (explore_iteration fuel target iteration vars st) as [[[q|vars1]|e|] st1] eqn:Hit;
      try done.
    + intros [= <- <-] HI.
      destruct (decide (normalize (current_page vars) = normalize target)) as [Heq|Hne].
      * rewrite explore_iteration_target in Hit by done. simplify_eq.
        exists vars. split; [done|]. by apply Hprint.
      * apply explore_iteration_return in Hit as [_ Heq]. done.
    + intros Hrec HI. eapply IH; [done|]. by eapply Hpass.
Qed.

End LoopShape.

(** * More properties, with their sample runs *)

Section MoreOfTheLoop.
Context {W : Type} {services : World W} {python : PyRuntime}.

Lemma explore_path_shape fuel start target N (w : W) p st' :
  explore_path fuel start target N w = (Ok p, st') →
  (∃ rest, p = start :: rest)
  ∧ ∀ i x, p !! i = Some x → (S i < length p)%nat → normalize x ≠ normalize target.
Proof.
  intros Hrun. unfold explore_path in Hrun.
  pose (I := fun (vars : locals) (st : run_state W) =>
    (∃ rest, path vars = start :: rest)
    ∧ last (path vars) = Some (current_page vars)
    ∧ ∀ i x, path vars !! i = Some x → (S i < length (path vars))%nat →
             normalize x ≠ normalize target).
  assert (∀ iteration vars st vars1 st1,
             I vars st →
             explore_iteration fuel target iteration vars st = (Ok (Next vars1), st1) →
             I vars1 st1) as Hpass.
  { intros iteration vars st vars1 st1 (Hstart & Hlast & Hstop) Hit.
    apply explore_iteration_step in Hit as (Hne & _ & [[-> _]|(chosen & -> & _)]).
    { done. }
    destruct Hstart as [rest Hrest]. unfold I. cbn [path current_page visited].
    split; [|split].
    - exists (rest ++ [chosen]). by rewrite Hrest.
    - by rewrite last_snoc.
    - intros i x Hx Hi. rewrite length_app in Hi. simpl in Hi.
      rewrite lookup_app_l in Hx by lia.
      destruct (decide (S i < length (path vars))%nat) as [Hlt|Hge]; [by eapply Hstop|].
      rewrite last_lookup in Hlast.
      replace (Nat.pred (length (path vars))) with i in Hlast by lia.
      by simplify_eq. }
  assert (I (initial_locals start) (initial_state w)) as Hinit.
  { split; [by exists []|]. split; [done|]. intros [|i] x; simpl; [lia|done]. }
  destruct (explore_loop_keeps I fuel target Hpass ltac:(done) _ _ _ _ _ _ Hrun Hinit)
    as (vars_end & <- & Hstart & _ & Hstop).
  done.
Qed.

(** X1. The path that [explore_path] returns begins with the start page,
    and the walk stops at the target: no element of the path before the
    last one is the target page once normalized. *)
Theorem path_starts_at_start_and_stops_at_target fuel start target N (w : W) p st' :
  explore_path fuel start target N w = (Ok p, st') →
  (∃ rest, p = start :: rest)
  ∧ ∀ i x, p !! i = Some x → (S i < length p)%nat → normalize x ≠ normalize target.
Proof. apply explore_path_shape. Qed.

(** X2. When [explore_path] returns, the model was called once for each
    step of the path: the calls are the elements of the path less one. *)
Theorem one_model_call_per_step fuel start target N (w : W) p st' :
  explore_path fuel start target N w = (Ok p, st') →
  length p = S (Trace.oracle_calls (trace st')).
Proof.
  intros Hrun. unfold explore_path in Hrun.
  pose (I := fun (vars : locals) (st : run_state W) =>
    length (path vars) = S (Trace.oracle_calls (trace st))).
  assert (∀ iteration vars st vars1 st1,
             I vars st →
             explore_iteration fuel target iteration vars st = (Ok (Next vars1), st1) →
             I vars1 st1) as Hpass.
  { unfold I. intros iteration vars st vars1 st1 HI Hit.
    apply explore_iteration_step in Hit as (_ & _ & [[-> Hc]|(chosen & -> & Hc)]).
    - congruence.
    - simpl. rewrite length_app. simpl. lia. }
  assert (∀ line vars st, I vars st → I vars (printing line st)) as Hprint.
  { unfold I. intros line vars st HI. by rewrite oracle_calls_printing. }
  destruct (explore_loop_keeps I fuel target Hpass Hprint _ _ _ _ _ _ Hrun eq_refl)
    as (vars_end & <- & HI).
  done.
Qed.

(** X3. When [explore_path] returns, every key of the cache is a page of
    the path: a list of links is only ever stored for a page the walk was on. *)
Theorem cache_holds_only_pages_of_the_path fuel start target N (w : W) p st' :
  explore_path fuel start target N w = (Ok p, st') →
  ∀ k, is_Some (cache st' !! k) → k ∈ p.
Proof.
  intros Hrun. unfold explore_path in Hrun.
  pose (I := fun (vars : locals) (st : run_state W) =>
    last (path vars) = Some (current_page vars)
    ∧ ∀ k, is_Some (cache st !! k) → k ∈ path vars).
  assert (∀ iteration vars st vars1 st1,
             I vars st →
             explore_iteration fuel target iteration vars st = (Ok (Next vars1), st1) →
             I vars1 st1) as Hpass.
  { intros iteration vars st vars1 st1 (Hlast & Hkeys) Hit.
    assert (current_page vars ∈ path vars) as Hcur.
    { apply list_elem_of_lookup. rewrite last_lookup in Hlast. eauto. }
    apply explore_iteration_step in Hit as (_ & Hk & [[-> _]|(chosen & -> & _)]).
    - split; [done|]. intros k Hs. destruct (Hk k Hs) as [Hold| ->]; auto.
    - unfold I. cbn [path current_page visited].
      split; [by rewrite last_snoc|]. intros k Hs.
      apply elem_of_app. left. destruct (Hk k Hs) as [Hold| ->]; auto. }
  assert (I (initial_locals start) (initial_state w)) as Hinit.
  { split; [done|]. intros k [v Hv]. simpl in Hv. by rewrite lookup_empty in Hv. }
  destruct (explore_loop_keeps I fuel target Hpass ltac:(done) _ _ _ _ _ _ Hrun Hinit)
    as (vars_end & <- & _ & Hkeys).
  done.
Qed.

(** X4. The line "Target page reached!" ends a run only when the last
    element of the returned path is the target page once normalized. *)
Theorem target_notice_is_sound fuel start target N (w : W) p st' :
  explore_path fuel start target N w = (Ok p, st') →
  last (trace st') = Some (EvPrint target_notice) →
  ∃ x, last p = Some x ∧ normalize x = normalize target.
Proof.
  unfold explore_path.
  assert (∀ n iteration vars (st : run_state W),
    last (path vars) = Some (current_page vars) →
    explore_loop fuel target n iteration vars st = (Ok p, st') →
    last (trace st') = Some (EvPrint target_notice) →
    ∃ x, last p = Some x ∧ normalize x = normalize target) as Hloop.
  { induction n as [|n IH]; intros iteration vars st Hlast; simpl.
    - intros [= <- <-]. cbn [trace]. rewrite last_snoc. by intros [=].
    - unfold bind at 1.
      destruct (explore_iteration fuel target iteration vars st)
        as [[[q|vars1]|e|] st1] eqn:Hit; try done.
      + intros [= <- <-] _. apply explore_iteration_return in Hit as [-> Heq]. eauto.
      + apply IH.
        apply explore_iteration_step in Hit as (_ & _ & [[-> _]|(chosen & -> & _)]);
          [done|]. cbn [path current_page visited]. by rewrite last_snoc. }
  apply Hloop. done.
Qed.

End MoreOfTheLoop.

Section MoreSampleRuns.
Import Sample Cases.

(** The walk "Pizza", "Cocoa", "Chocolate". *)
Lemma walk_starts_at_pizza_and_stops_at_chocolate :
  (∃ rest, ["Pizza"; "Cocoa"; "Chocolate"] = "Pizza" :: rest)
  ∧ ∀ i x, ["Pizza"; "Cocoa"; "Chocolate"] !! i = Some x →
           (S i < length ["Pizza"; "Cocoa"; "Chocolate"])%nat →
           normalize x ≠ normalize "Chocolate".
Proof.
  refine (path_starts_at_start_and_stops_at_target 3 "Pizza" "Chocolate" 5 walk_world
            ["Pizza"; "Cocoa"; "Chocolate"] walk_final _).
  vm_compute. reflexivity.
Defined.

Lemma walk_calls_the_model_twice :
  length ["Pizza"; "Cocoa"; "Chocolate"] = S (Trace.oracle_calls (trace walk_final)).
Proof.
  refine (one_model_call_per_step 3 "Pizza" "Chocolate" 5 walk_world
            ["Pizza"; "Cocoa"; "Chocolate"] walk_final _).
  vm_compute. reflexivity.
Defined.

Lemma walk_caches_pizza_and_cocoa :
  (∀ k, is_Some (cache walk_final !! k) → k ∈ ["Pizza"; "Cocoa"; "Chocolate"])
  ∧ is_Some (cache walk_final !! "Cocoa").
Proof.
  split.
  - refine (cache_holds_only_pages_of_the_path 3 "Pizza" "Chocolate" 5 walk_world
              ["Pizza"; "Cocoa"; "Chocolate"] walk_final _).
    vm_compute. reflexivity.
  - vm_compute. eauto.
Defined.

Lemma walk_ends_on_the_target :
  ∃ x, last ["Pizza"; "Cocoa"; "Chocolate"] = Some x ∧ normalize x = normalize "Chocolate".
Proof.
  refine (target_notice_is_sound 3 "Pizza" "Chocolate" 5 walk_world
            ["Pizza"; "Cocoa"; "Chocolate"] walk_final _ _).
  - vm_compute. reflexivity.
  - vm_compute. reflexivity.
Defined.

End MoreSampleRuns.

(** * More properties of the fetch *)

Section MoreFetcherFacts.
Context {W : Type} {services : World W} {python : PyRuntime}.

(** A pass of the retry loop whose exchange does not ask for a retry ends
    the loop with what the exchange gave. *)
Lemma retry_loop_settles steps page_title params retry_count (st : run_state W) r st1 :
  (retry_count < MAX_RETRIES)%nat →
  exchange page_title params retry_count st = (r, st1) →
  (∀ n, r ≠ Ok (inr n)) →
  retry_loop (S steps) page_title params retry_count st
  = (match r with
     | Ok (inl data) => Ok data
     | Ok (inr _) => NoReturn
     | Raise e => Raise e
     | NoReturn => NoReturn
     end, st1).
Proof.
  intros Hlt Hex Hr. rewrite retry_loop_eq.
  assert ((retry_count <? MAX_RETRIES)%nat = true) as -> by (by apply Nat.ltb_lt).
  unfold bind at 1. rewrite Hex. destruct r as [[data|n]|e|]; try done.
  by destruct (Hr n).
Qed.

(** The exchange on a reply that is not a throttling one. *)
Lemma exchange_connection_error page_title params retry_count (st : run_state W) e w' :
  sem_value st ≠ 0%nat →
  http_get (world st) params = (inl e, w') →
  exchange page_title params retry_count st
  = (Raise e,
     {| world := w';
        trace := trace st ++ [EvAcquire; EvRequest params; EvExchangeEnd; EvRelease];
        sem_value := sem_value st; cache := cache st |}).
Proof.
  intros Hsem Hget. rewrite exchange_eq.
  destruct (sem_value st) as [|n]; [done|]. cbv zeta. rewrite Hget. cbn [fst snd].
  by rewrite <- app_assoc.
Qed.

Lemma exchange_error_status page_title params retry_count (st : run_state W) response w' :
  sem_value st ≠ 0%nat →
  http_get (world st) params = (inr response, w') →
  (400 ≤ status response)%Z → status response ≠ 429%Z →
  exchange page_title params retry_count st
  = (Raise (ClientResponseError (status response)),
     {| world := w';
        trace := trace st ++ [EvAcquire; EvRequest params; EvResponse (status response);
                              EvExchangeEnd; EvRelease];
        sem_value := sem_value st; cache := cache st |}).
Proof.
  intros Hsem Hget Hge Hne. rewrite exchange_eq.
  destruct (sem_value st) as [|n]; [done|]. cbv zeta. rewrite Hget. cbn [fst snd].
  assert ((status response =? 429)%Z = false) as -> by (by apply Z.eqb_neq).
  assert ((status response =? 200)%Z = false) as -> by (apply Z.eqb_neq; lia).
  assert ((400 <=? status response)%Z = true) as -> by (by apply Z.leb_le).
  cbn [negb andb]. by rewrite <- !app_assoc.
Qed.

Lemma exchange_body page_title params retry_count (st : run_state W) response w' :
  sem_value st ≠ 0%nat →
  http_get (world st) params = (inr response, w') →
  (status response < 400)%Z → status response ≠ 429%Z →
  exchange page_title params retry_count st
  = match json_body response with
    | Some data =>
        (Ok (inl data),
         {| world := w';
            trace := trace st ++ [EvAcquire; EvRequest params; EvResponse (status response);
                                  EvExchangeEnd; EvRelease];
            sem_value := sem_value st; cache := cache st |})
    | None =>
        (Raise JsonDecodeError,
         {| world := w';
            trace := trace st ++ [EvAcquire; EvRequest params; EvResponse (status response);
                                  EvPrint ("Error decoding JSON for page: " +:+ page_title);
                                  EvExchangeEnd; EvRelease];
            sem_value := sem_value st; cache := cache st |})
    end.
Proof.
  intros Hsem Hget Hlt Hne. rewrite exchange_eq.
  destruct (sem_value st) as [|n]; [done|]. cbv zeta. rewrite Hget. cbn [fst snd].
  assert ((status response =? 429)%Z = false) as -> by (by apply Z.eqb_neq).
  assert ((400 <=? status response)%Z = false) as -> by (apply Z.leb_gt; lia).
  rewrite andb_false_r.
  destruct (json_body response); by rewrite <- !app_assoc.
Qed.

(** An exception of the pages is the exception of the fetch, which leaves
    the cache alone. *)
Lemma get_links_from_page_raise fuel page_title (st : run_state W) e st' :
  cache st !! page_title = None →
  paginate fuel page_title [] (initial_params page_title) st = (Raise e, st') →
  get_links_from_page fuel page_title st = (Raise e, st').
Proof. intros Hc Hp. by rewrite (get_links_from_page_miss _ _ _ Hc), Hp. Qed.

End MoreFetcherFacts.

Section MoreOfTheFetch.
Context {W : Type} {services : World W} {python : PyRuntime}.

Lemma retry_loop_after_throttles k page_title params (st : run_state W) w1 :
  sem_value st ≠ 0%nat → (k < MAX_RETRIES)%nat →
  throttles k (world st) params = Some w1 →
  ∃ steps,
    retry_loop MAX_RETRIES page_title params 0 st
    = retry_loop (S steps) page_title params k
        {| world := w1;
           trace := trace st ++ flat_map (throttled_exchange page_title params) (seq 1 k);
           sem_value := sem_value st; cache := cache st |}.
Proof.
  intros Hsem Hk Hthr.
  rewrite (retry_loop_throttled k _ _ _ 0 _ w1) by (done || lia).
  destruct (MAX_RETRIES - k)%nat as [|steps] eqn:Hsteps; [lia|]. by exists steps.
Qed.

(** X5. A reply that is neither a throttling one nor usable ends the fetch
    at once, whatever number of throttled attempts came before it: when the
    request itself fails, when the status is 400 or more, and when the body
    does not decode, the fetch raises the matching exception after that one
    request, without a sleep or a retry, with the permit released and the
    cache as it was. *)
Theorem unusable_reply_aborts_the_fetch fuel page_title links params
    (st : run_state W) k w1 :
  sem_value st ≠ 0%nat → (k < MAX_RETRIES)%nat →
  throttles k (world st) params = Some w1 →
  let before :=
    trace st ++ flat_map (throttled_exchange page_title params) (seq 1 k)
             ++ [EvAcquire; EvRequest params] in
  let fails e w' seen :=
    paginate (S fuel) page_title links params st
    = (Raise e, {| world := w'; trace := before ++ seen ++ [EvExchangeEnd; EvRelease];
                   sem_value := sem_value st; cache := cache st |}) in
  (∀ e w', http_get w1 params = (inl e, w') → fails e w' [])
  ∧ (∀ response w',
        http_get w1 params = (inr response, w') →
        (400 ≤ status response)%Z → status response ≠ 429%Z →
        fails (ClientResponseError (status response)) w' [EvResponse (status response)])
  ∧ (∀ response w',
        http_get w1 params = (inr response, w') →
        (status response < 400)%Z → status response ≠ 429%Z →
        json_body response = None →
        fails JsonDecodeError w'
          [EvResponse (status response);
           EvPrint ("Error decoding JSON for page: " +:+ page_title)])
  ∧ (cache st !! page_title = None →
     ∀ e st', paginate (S fuel) page_title [] (initial_params page_title) st = (Raise e, st') →
              get_links_from_page (S fuel) page_title st = (Raise e, st')).
Proof.
  intros Hsem Hk Hthr before fails.
  destruct (retry_loop_after_throttles k page_title params st w1 Hsem Hk Hthr)
    as (steps & Hloop).
  split; [|split; [|split]].
  - intros e w' Hget. unfold fails. rewrite paginate_eq. unfold bind at 1.
    rewrite Hloop.
    erewrite retry_loop_settles;
      [|done|by apply exchange_connection_error|done].
    cbn [trace]. unfold before. by rewrite <- !app_assoc.
  - intros response w' Hget Hge Hne. unfold fails. rewrite paginate_eq. unfold bind at 1.
    rewrite Hloop.
    erewrite retry_loop_settles;
      [|done|by apply exchange_error_status|done].
    cbn [trace]. unfold before. by rewrite <- !app_assoc.
  - intros response w' Hget Hlt Hne Hbody. unfold fails. rewrite paginate_eq.
    unfold bind at 1. rewrite Hloop.
    match goal with |- context [retry_loop _ _ _ _ ?s] => set (stk := s) end.
    pose proof (exchange_body page_title params k stk response w' Hsem Hget Hlt Hne) as Hex.
    rewrite Hbody in Hex.
    rewrite (retry_loop_settles _ _ _ _ _ _ _ Hk Hex) by done.
    subst stk. cbn [trace]. unfold before. by rewrite <- !app_assoc.
  - intros Hc e st'. by apply get_links_from_page_raise.
Qed.

(** X6. A first reply with a body that decodes and has no continuation
    makes the fetch return when its status is 200, and as well when it is
    any other status below 400 except 429: the list returned is the titles
    of the body that the filter keeps, it is stored in the cache under the
    title, and one request was sent. *)
Theorem status_below_400_is_read_as_success fuel page_title (st : run_state W)
    response w' data :
  sem_value st ≠ 0%nat → cache st !! page_title = None →
  http_get (world st) (initial_params page_title) = (inr response, w') →
  (status response < 400)%Z → status response ≠ 429%Z →
  json_body response = Some data → continue_params data = None →
  let links := List.filter kept (set_iter (add_links [] (query_pages data))) in
  get_links_from_page (S fuel) page_title st
  = (Ok links,
     {| world := w';
        trace := trace st ++ [EvAcquire; EvRequest (initial_params page_title);
                              EvResponse (status response); EvExchangeEnd; EvRelease];
        sem_value := sem_value st;
        cache := <[page_title := links]> (cache st) |}).
Proof.
  intros Hsem Hc Hget Hlt Hne Hbody Hcont links.
  rewrite (get_links_from_page_miss _ _ _ Hc), paginate_eq. unfold bind at 1.
  pose proof (exchange_body page_title (initial_params page_title) 0 st response w'
                Hsem Hget Hlt Hne) as Hex.
  rewrite Hbody in Hex. change MAX_RETRIES with (S 4) at 1.
  assert (0 < MAX_RETRIES)%nat as Hfirst by (unfold MAX_RETRIES; lia).
  rewrite (retry_loop_settles _ _ _ _ _ _ _ Hfirst Hex) by done.
  by rewrite Hcont.
Qed.

End MoreOfTheFetch.

Section PagesOfAFetch.
Context {W : Type} {services : World W} {python : PyRuntime}.

Lemma elem_of_set_add x y (s : pyset) : x ∈ set_add y s ↔ x = y ∨ x ∈ s.
Proof.
  unfold set_add. destruct (decide (y ∈ s)) as [Hy|Hy].
  - split; [by right|]. by intros [->|].
  - rewrite elem_of_app, list_elem_of_singleton. tauto.
Qed.

Lemma elem_of_add_titles x titles (s : pyset) :
  x ∈ fold_left (fun acc title => set_add title acc) titles s ↔ x ∈ s ∨ x ∈ titles.
Proof.
  revert s. induction titles as [|t titles IH]; intros s; simpl.
  - rewrite elem_of_nil. tauto.
  - rewrite IH, elem_of_set_add, elem_of_cons. tauto.
Qed.

Lemma elem_of_add_links x pages (s : pyset) :
  x ∈ add_links s pages
  ↔ x ∈ s ∨ ∃ page_id titles, (page_id, Some titles) ∈ pages ∧ x ∈ titles.
Proof.
  unfold add_links. revert s. induction pages as [|[id [titles|]] pages IH]; intros s; simpl.
  - split; [by left|]. intros [|(i & t & Hin & _)]; [done|]. by apply elem_of_nil in Hin.
  - rewrite IH, elem_of_add_titles. split.
    + intros [[Hs|Ht]|(i & t & Hin & Hx)]; [by left| |].
      * right. exists id, titles. split; [apply list_elem_of_here|done].
      * right. exists i, t. split; [by apply list_elem_of_further|done].
    + intros [Hs|(i & t & Hin & Hx)]; [by left; left|].
      apply elem_of_cons in Hin as [[= -> ->]|Hin]; [by left; right|].
      right. eauto.
  - rewrite IH. split.
    + intros [Hs|(i & t & Hin & Hx)]; [by left|].
      right. exists i, t. split; [by apply list_elem_of_further|done].
    + intros [Hs|(i & t & Hin & Hx)]; [by left|].
      apply elem_of_cons in Hin as [[=]|Hin]. right. eauto.
Qed.

Lemma elem_of_served_links x (pages : list (nat * api_data)) (s : pyset) :
  x ∈ served_links s pages ↔ x ∈ s ∨ ∃ page, page ∈ pages ∧ listed x page.2.
Proof.
  unfold served_links. revert s. induction pages as [|page pages IH]; intros s; simpl.
  - split; [by left|]. intros [|(p & Hin & _)]; [done|]. by apply elem_of_nil in Hin.
  - rewrite IH, elem_of_add_links. unfold listed. split.
    + intros [[Hs|Hl]|(p & Hin & Hl)]; [by left| |].
      * right. exists page. split; [apply list_elem_of_here|done].
      * right. exists p. split; [by apply list_elem_of_further|done].
    + intros [Hs|(p & Hin & Hl)]; [by left; left|].
      apply elem_of_cons in Hin as [->|Hin]; [by left; right|]. right. eauto.
Qed.

Lemma served_links_NoDup (pages : list (nat * api_data)) (s : pyset) :
  NoDup s → NoDup (served_links s pages).
Proof.
  unfold served_links. revert s. induction pages as [|page pages IH]; intros s Hs; simpl;
    [done|]. by apply IH, add_links_NoDup.
Qed.

Lemma requests_app t1 t2 :
  Trace.requests (t1 ++ t2) = (Trace.requests t1 + Trace.requests t2)%nat.
Proof. apply count_app. Qed.

(** The pages that the source serves are all read, one request after the
    other, the retry counter starting again for each of them. *)
Lemma paginate_serves (pages : list (nat * api_data)) :
  ∀ fuel page_title links params (st : run_state W) w',
    sem_value st ≠ 0%nat →
    serves (world st) params pages w' →
    (length pages ≤ fuel)%nat →
    ∃ evs,
      paginate fuel page_title links params st
      = (Ok (served_links links pages),
         {| world := w'; trace := trace st ++ evs;
            sem_value := sem_value st; cache := cache st |})
      ∧ Trace.requests evs = served_requests pages
      ∧ Trace.sleeps evs = served_sleeps pages.
Proof.
  induction pages as [|[k data] rest IH]; intros fuel page_title links params st w' Hsem;
    [done|].
  cbn [serves fst snd]. intros (Hk & w1 & (w0 & response & Hthr & Hget & Hst & Hbody) & Hnext).
  destruct fuel as [|fuel]; [simpl; lia|]. cbn [length]. intros Hfuel.
  rewrite paginate_eq. unfold bind at 1.
  rewrite (retry_loop_recovers k page_title params st w0 response w1 data) by done.
  assert (Trace.requests (flat_map (throttled_exchange page_title params) (seq 1 k)
                          ++ successful_exchange params) = S k) as Hreq.
  { rewrite requests_app, requests_throttled, length_seq.
    unfold Trace.requests, Trace.count, successful_exchange. simpl. lia. }
  assert (Trace.sleeps (flat_map (throttled_exchange page_title params) (seq 1 k)
                        ++ successful_exchange params) = map (Nat.pow 2) (seq 1 k)) as Hsl.
  { rewrite sleeps_app, sleeps_throttled. simpl. by rewrite app_nil_r. }
  unfold served_links, served_requests, served_sleeps.
  cbn [fold_left flat_map fmap list_fmap sum_list sum_list_with fst snd].
  destruct (continue_params data) as [c|].
  - edestruct (IH fuel page_title (add_links links (query_pages data)) (c ∪ params)
                 {| world := w1;
                    trace := trace st ++
                             flat_map (throttled_exchange page_title params) (seq 1 k)
                             ++ successful_exchange params;
                    sem_value := sem_value st; cache := cache st |} w')
      as (evs & Hrun & Hr & Hs); [done|done|lia|].
    eexists. split; [|split].
    + rewrite Hrun. cbn [world trace sem_value cache]. rewrite <- !app_assoc.
      rewrite (app_assoc (flat_map _ _)). reflexivity.
    + rewrite requests_app, Hreq, Hr. reflexivity.
    + rewrite sleeps_app, Hsl, Hs. reflexivity.
  - destruct Hnext as [-> ->]. eexists. split; [reflexivity|]. split.
    + rewrite Hreq. simpl. unfold id. lia.
    + rewrite Hsl. simpl. by rewrite app_nil_r.
Qed.

End PagesOfAFetch.

Section MoreOfTheFetchPages.
Context {W : Type} {services : World W} {python : PyRuntime}.

Lemma NoDup_filter_kept links : NoDup links → NoDup (List.filter kept links).
Proof.
  induction 1 as [|x l Hx Hl IH]; simpl; [constructor|].
  destruct (kept x); [|done]. constructor; [|done].
  rewrite list_elem_of_In, filter_In, <- list_elem_of_In. tauto.
Qed.

(** X7. A fetch follows the continuations of the source from page to page,
    with the continuation merged into the parameters of the next request
    and the retry counter starting again at each page, so that every page
    may be throttled up to four times. It returns, without duplicates, the
    titles listed on any of the pages that the filter keeps, stores that
    list in the cache, and has sent one request for each reply. *)
Theorem fetch_follows_continuations fuel page_title (st : run_state W)
    (pages : list (nat * api_data)) w' :
  sem_value st ≠ 0%nat → cache st !! page_title = None →
  serves (world st) (initial_params page_title) pages w' →
  (length pages ≤ fuel)%nat →
  ∃ links evs,
    get_links_from_page fuel page_title st
    = (Ok links, {| world := w'; trace := trace st ++ evs;
                    sem_value := sem_value st;
                    cache := <[page_title := links]> (cache st) |})
    ∧ Trace.requests evs = served_requests pages
    ∧ Trace.sleeps evs = served_sleeps pages
    ∧ NoDup links
    ∧ ∀ link, link ∈ links
              ↔ denied link = false ∧ ∃ page, page ∈ pages ∧ listed link page.2.
Proof.
  intros Hsem Hc Hserves Hfuel.
  destruct (paginate_serves pages fuel page_title [] (initial_params page_title) st w'
              Hsem Hserves Hfuel) as (evs & Hrun & Hreq & Hsl).
  pose proof (served_links_NoDup pages [] (NoDup_nil_2 (A := string))) as Hnd.
  exists (List.filter kept (set_iter (served_links [] pages))), evs.
  split; [|split; [done|split; [done|split]]].
  - by rewrite (get_links_from_page_miss _ _ _ Hc), Hrun.
  - apply NoDup_filter_kept. by rewrite (set_iter_perm _ Hnd).
  - intros link. rewrite elem_of_filter_kept, (set_iter_perm _ Hnd), elem_of_served_links.
    rewrite elem_of_nil. tauto.
Qed.

(** X8. A list that [get_links_from_page] returns has no title twice, and
    neither have the lists in the cache, when those it started with had none. *)
Theorem fetched_links_are_distinct fuel page_title (st : run_state W) links st' :
  get_links_from_page fuel page_title st = (Ok links, st') →
  (∀ k v, cache st !! k = Some v → NoDup v) →
  NoDup links ∧ ∀ k v, cache st' !! k = Some v → NoDup v.
Proof.
  intros Hrun Hcache.
  destruct (cache st !! page_title) as [l|] eqn:Hc.
  - rewrite (get_links_from_page_hit _ _ _ _ Hc) in Hrun. simplify_eq. eauto.
  - rewrite (get_links_from_page_miss _ _ _ Hc) in Hrun.
    destruct (paginate fuel page_title [] (initial_params page_title) st)
      as [[set|e|] st1] eqn:Hp; [|done..]. cbv zeta in Hrun. simplify_eq.
    pose proof (paginate_NoDup _ _ _ _ _ _ _ Hp (NoDup_nil_2 (A := string))) as Hnd.
    apply paginate_quiet in Hp as (_ & Hca & _).
    assert (NoDup (List.filter kept (set_iter set))) as Hres.
    { apply NoDup_filter_kept. by rewrite (set_iter_perm _ Hnd). }
    split; [done|]. intros k v. cbn [cache]. rewrite Hca.
    destruct (decide (k = page_title)) as [->|Hne].
    + rewrite lookup_insert_eq. by intros [= <-].
    + rewrite lookup_insert_ne by done. apply Hcache.
Qed.

Lemma bounded_nil retry_count params :
  (retry_count ≤ MAX_RETRIES)%nat →
  (Trace.requests [] + retry_count ≤ MAX_RETRIES)%nat
  ∧ (sum_list (Trace.sleeps []) + 2 ^ S retry_count ≤ 2 ^ S MAX_RETRIES)%nat
  ∧ Forall (fun e => match e with EvRequest q => q = params | _ => True end) [].
Proof.
  intros Hle. split; [unfold Trace.requests, Trace.count; simpl; lia|].
  split; [|constructor].
  change (sum_list (Trace.sleeps [])) with 0%nat. apply Nat.pow_le_mono_r; lia.
Qed.

Lemma retry_loop_bounded steps page_title params :
  ∀ retry_count (st : run_state W) r st',
    retry_loop steps page_title params retry_count st = (r, st') →
    (retry_count ≤ MAX_RETRIES)%nat →
    ∃ evs, trace st' = trace st ++ evs
           ∧ (Trace.requests evs + retry_count ≤ MAX_RETRIES)%nat
           ∧ (sum_list (Trace.sleeps evs) + 2 ^ S retry_count ≤ 2 ^ S MAX_RETRIES)%nat
           ∧ Forall (fun e => match e with EvRequest q => q = params | _ => True end) evs.
Proof.
  induction steps as [|steps IH]; intros retry_count st r st'; rewrite retry_loop_eq.
  - intros Hrun Hle. exists []. rewrite app_nil_r.
    assert (st' = st) as ->
      by (unfold no_return, raise in Hrun;
          destruct (retry_count <? MAX_RETRIES)%nat; by simplify_eq).
    split; [done|]. by apply bounded_nil.
  - destruct (retry_count <? MAX_RETRIES)%nat eqn:Hlt.
    2:{ intros [= <- <-] Hle. exists []. rewrite app_nil_r.
        split; [done|]. by apply bounded_nil. }
    apply Nat.ltb_lt in Hlt. unfold bind at 1. rewrite exchange_eq.
    destruct (sem_value st) as [|n] eqn:Hn.
    { intros [= <- <-] Hle. exists []. rewrite app_nil_r.
      split; [done|]. by apply bounded_nil. }
    cbv zeta. intros Hrun _.
    assert (2 ^ S (S retry_count) ≤ 2 ^ S MAX_RETRIES)%nat as Hpow
      by (apply Nat.pow_le_mono_r; lia).
    assert (2 ^ S (S retry_count) = 2 ^ S retry_count + 2 ^ S retry_count)%nat as Hdouble
      by (rewrite (Nat.pow_succ_r' 2 (S retry_count)); lia).
    destruct (http_get (world st) params) as [[e|response] w1]; cbn [fst snd] in Hrun.
    { simplify_eq. eexists. split; [cbn [trace]; rewrite <- app_assoc; reflexivity|].
      split; [unfold Trace.requests, Trace.count; simpl; lia|].
      split; [simpl; lia|]. by repeat constructor. }
    destruct (status response =? 429)%Z.
    { apply IH in Hrun as (evs & Ht & Hreq & Hsl & Hall); [|lia].
      cbn [trace] in Ht. rewrite <- !app_assoc in Ht. cbn [app] in Ht.
      eexists. split; [exact Ht|]. split; [|split].
      - unfold Trace.requests, Trace.count in *.
        cbn [List.filter Trace.is_request length]. lia.
      - unfold Trace.sleeps in *. cbn [omap list_omap sum_list sum_list_with].
        unfold id at 1. lia.
      - by repeat constructor. }
    destruct (negb (status response =? 200)%Z && (400 <=? status response)%Z).
    { simplify_eq. eexists. split; [cbn [trace]; rewrite <- !app_assoc; reflexivity|].
      split; [unfold Trace.requests, Trace.count; simpl; lia|].
      split; [simpl; lia|]. by repeat constructor. }
    destruct (json_body response); unfold ret in Hrun; simplify_eq.
    + eexists. split; [cbn [trace]; rewrite <- !app_assoc; reflexivity|].
      split; [unfold Trace.requests, Trace.count; simpl; lia|].
      split; [simpl; lia|]. by repeat constructor.
    + eexists. split; [cbn [trace]; rewrite <- !app_assoc; reflexivity|].
      split; [unfold Trace.requests, Trace.count; simpl; lia|].
      split; [simpl; lia|]. by repeat constructor.
Qed.

(** X9. For one page of a fetch, whatever the source replies, the request
    is sent at most [MAX_RETRIES] = 5 times, each time with the same
    parameters, and the sleeps between the attempts add up to at most 62
    seconds. *)
Theorem a_page_takes_at_most_five_requests page_title params (st : run_state W) r st' :
  retry_loop MAX_RETRIES page_title params 0 st = (r, st') →
  ∃ evs, trace st' = trace st ++ evs
         ∧ (Trace.requests evs ≤ 5)%nat
         ∧ (sum_list (Trace.sleeps evs) ≤ 62)%nat
         ∧ Forall (fun e => match e with EvRequest q => q = params | _ => True end) evs.
Proof.
  intros Hrun.
  apply retry_loop_bounded in Hrun as (evs & Ht & Hreq & Hsl & Hall);
    [|unfold MAX_RETRIES; lia].
  exists evs. split; [done|]. unfold MAX_RETRIES in *.
  change (2 ^ 1)%nat with 2%nat in Hsl. change (2 ^ 6)%nat with 64%nat in Hsl.
  split; [lia|]. split; [lia|done].
Qed.

End MoreOfTheFetchPages.

Section MoreOfThePass.
Context {W : Type} {services : World W} {python : PyRuntime}.

(** [choose_next_link] by what the model does. *)
Lemma choose_next_link_reply current target seen links (st : run_state W) :
  let prompt := build_prompt current target seen links in
  let asked := trace st ++ [EvPrint (Str.nl +:+ "--- Prompting Gemini ---");
                            EvPrint prompt; EvGenerate prompt] in
  choose_next_link current target seen links st
  = match generate_content (world st) prompt with
    | (CallRaises e, w') =>
        (Raise e, {| world := w'; trace := asked;
                     sem_value := sem_value st; cache := cache st |})
    | (TextRaises e, w') =>
        (Raise e, {| world := w'; trace := asked ++ [EvTimeSleep 2];
                     sem_value := sem_value st; cache := cache st |})
    | (Text s, w') =>
        (Ok (str_strip s),
         {| world := w';
            trace := asked ++ [EvTimeSleep 2; EvPrint ("Gemini response: " +:+ str_strip s)];
            sem_value := sem_value st; cache := cache st |})
    end.
Proof.
  intros prompt asked. unfold choose_next_link, generate_response, bind, print, emit, ret.
  cbn [world trace sem_value cache]. fold prompt.
  destruct (generate_content (world st) prompt) as [[e|e|s] w'];
    cbn [world trace sem_value cache]; unfold asked; by rewrite <- ?app_assoc.
Qed.

(** X10. In a pass where the model's answer, with the blanks around it
    stripped, is one of the links of the current page, the loop moves to
    that link: it is appended to the path and to the visited pages and is
    the new current page. The model was asked once, with the prompt built
    from the current page, the target, the visited pages and the links, and
    the task slept its 2 seconds. *)
Theorem accepted_answer_is_followed fuel target iteration vars
    (st st1 : run_state W) links s w' :
  normalize (current_page vars) ≠ normalize target →
  get_links_from_page fuel (current_page vars) (printing (pass_banner iteration vars) st)
    = (Ok links, st1) →
  generate_content (world st1)
    (build_prompt (current_page vars) target (visited vars) links) = (Text s, w') →
  str_strip s ∈ links →
  let answer := str_strip s in
  let prompt := build_prompt (current_page vars) target (visited vars) links in
  explore_iteration fuel target iteration vars st
  = (Ok (Next {| current_page := answer; path := path vars ++ [answer];
                 visited := visited vars ++ [answer] |}),
     {| world := w';
        trace := trace st1 ++
          [EvPrint (Str.nl +:+ "--- Prompting Gemini ---"); EvPrint prompt;
           EvGenerate prompt; EvTimeSleep 2;
           EvPrint ("Gemini response: " +:+ answer); EvPrint ("Moving to: " +:+ answer)];
        sem_value := sem_value st1; cache := cache st1 |}).
Proof.
  intros Hne Hget Hgen Hin answer prompt.
  destruct links as [|first_link rest]; [by apply elem_of_nil in Hin|].
  pose proof (choose_next_link_reply (current_page vars) target (visited vars)
                (first_link :: rest) st1) as Hch.
  cbv zeta in Hch. rewrite Hgen in Hch.
  rewrite (explore_iteration_move _ _ _ _ _ _ _ _ _ _ Hne Hget Hch).
  rewrite decide_True by done. unfold printing. cbn [world trace sem_value cache].
  by rewrite <- !app_assoc.
Qed.

(** X11. An exception in a pass ends the run with that exception. When
    the fetch raises, nothing more happens. When the call of the model
    raises, the model was asked and the task has not slept; when reading
    the text of its reply raises, the task has slept its 2 seconds. In both
    cases the list fetched for the current page stays in the cache. *)
Theorem exceptions_end_the_run fuel target iteration vars (st : run_state W) n :
  normalize (current_page vars) ≠ normalize target →
  let st0 := printing (pass_banner iteration vars) st in
  (∀ e st1,
      get_links_from_page fuel (current_page vars) st0 = (Raise e, st1) →
      explore_loop fuel target (S n) iteration vars st = (Raise e, st1))
  ∧ (∀ links st1,
        get_links_from_page fuel (current_page vars) st0 = (Ok links, st1) →
        links ≠ [] →
        let prompt := build_prompt (current_page vars) target (visited vars) links in
        let asked := trace st1 ++ [EvPrint (Str.nl +:+ "--- Prompting Gemini ---");
                                   EvPrint prompt; EvGenerate prompt] in
        (∀ e w', generate_content (world st1) prompt = (CallRaises e, w') →
                 explore_loop fuel target (S n) iteration vars st
                 = (Raise e, {| world := w'; trace := asked;
                                sem_value := sem_value st1; cache := cache st1 |}))
        ∧ (∀ e w', generate_content (world st1) prompt = (TextRaises e, w') →
                   explore_loop fuel target (S n) iteration vars st
                   = (Raise e, {| world := w'; trace := asked ++ [EvTimeSleep 2];
                                  sem_value := sem_value st1; cache := cache st1 |}))
        ∧ cache st1 !! current_page vars = Some links).
Proof.
  intros Hne st0.
  assert (∀ r st', explore_iteration fuel target iteration vars st = (Raise r, st') →
                   explore_loop fuel target (S n) iteration vars st = (Raise r, st')) as Hloop.
  { intros r st' Hit. simpl. unfold bind at 1. by rewrite Hit. }
  assert (explore_iteration fuel target iteration vars st
          = (let* available_links := get_links_from_page fuel (current_page vars) in
             match available_links with
             | [] =>
                 do print ("No available links found on page '" +:+ current_page vars
                           +:+ "'. Stopping search.") then
                 ret (Next vars)
             | first_link :: _ =>
                 let* chosen_link :=
                   choose_next_link (current_page vars) target (visited vars)
                     available_links in
                 let* chosen_link :=
                   (if decide (chosen_link ∈ available_links) then ret chosen_link
                    else
                      do print ("Chosen link '" +:+ chosen_link
                                +:+ "' not in available links.") then
                      do print ("Defaulting to first available link: '" +:+ first_link
                                +:+ "'.") then
                      ret first_link) in
                 do print ("Moving to: " +:+ chosen_link) then
                 ret (Next {| current_page := chosen_link;
                              path := path vars ++ [chosen_link];
                              visited := visited vars ++ [chosen_link] |})
             end)%run st0) as Hbody.
  { unfold explore_iteration. rewrite decide_False by done. reflexivity. }
  split.
  - intros e st1 Hget. apply Hloop. rewrite Hbody. unfold bind at 1. by rewrite Hget.
  - intros links st1 Hget Hnonempty prompt asked.
    destruct links as [|first_link rest]; [done|].
    pose proof (choose_next_link_reply (current_page vars) target (visited vars)
                  (first_link :: rest) st1) as Hch. cbv zeta in Hch.
    split; [|split].
    + intros e w' Hgen. apply Hloop. rewrite Hbody. unfold bind at 1. rewrite Hget.
      unfold bind at 1. rewrite Hch. fold prompt. by rewrite Hgen.
    + intros e w' Hgen. apply Hloop. rewrite Hbody. unfold bind at 1. rewrite Hget.
      unfold bind at 1. rewrite Hch. fold prompt. by rewrite Hgen.
    + by eapply get_links_from_page_cached.
Qed.

End MoreOfThePass.

Section TitlesAndMain.
Context {W : Type} {services : World W} {python : PyRuntime}.

Lemma has_colon_prefix p : ∀ s,
  String.prefix p s = true → has_colon p = true → has_colon s = true.
Proof.
  unfold has_colon.
  induction p as [|c p IH]; intros [|d s]; cbn [String.prefix]; try done.
  destruct (Ascii.ascii_dec c d) as [->|Hcd]; [|done].
  cbn [list_ascii_of_string existsb]. intros Hp.
  destruct (Ascii.eqb ":" d); [done|]. cbn [orb]. by apply IH.
Qed.

(** X12. The filter only ever removes titles with a colon in them: a title
    without one that is in the list before the loop of lines 79-81 is in
    the list after it. *)
Theorem titles_without_colon_are_kept raw link :
  link ∈ raw → has_colon link = false →
  denied link = false
  ∧ ∃ links, remove_denied raw raw = Some links ∧ link ∈ links.
Proof.
  intros Hin Hcolon.
  assert (denied link = false) as Hkept.
  { apply denied_false_prefix. intros p Hp.
    destruct (Str.startswith link p) eqn:Hs; [|done]. unfold Str.startswith in Hs.
    assert (has_colon p = true) as Hpc.
    { unfold denylist in Hp. repeat (apply elem_of_cons in Hp as [->|Hp]; [done|]).
      by apply elem_of_nil in Hp. }
    pose proof (has_colon_prefix _ _ Hs Hpc). congruence. }
  split; [done|]. exists (List.filter kept raw).
  split; [apply remove_denied_self|]. by apply elem_of_filter_kept.
Qed.

Lemma prefix_append x : ∀ r, String.prefix x (x +:+ r) = true.
Proof.
  induction x as [|c x IH]; intros r; simpl; [by destruct r|].
  destruct (Ascii.ascii_dec c c); [apply IH|done].
Qed.

Lemma prefix_self x : String.prefix x x = true.
Proof.
  induction x as [|c x IH]; simpl; [done|]. by destruct (Ascii.ascii_dec c c).
Qed.

Lemma join_starts_with_first sep x l :
  Str.startswith (Str.join sep (x :: l)) x = true.
Proof.
  unfold Str.startswith, Str.join. destruct l as [|y l]; simpl.
  - apply prefix_self.
  - apply prefix_append.
Qed.

(** X13. When [main] returns, the exploration from "Pizza" towards
    "Chocolate" with 100 passes has returned a path of at most 101 pages,
    and the last two lines printed are the heading and that path, its pages
    joined by " -> ", a line that begins with Pizza. An exception or a hang
    of the exploration is that of [main], which then prints nothing more. *)
Theorem main_prints_the_path fuel (w : W) r st' :
  main fuel w = (r, st') →
  ∃ run st,
    explore_path fuel "Pizza" "Chocolate" 100 w = (run, st)
    ∧ world st' = world st ∧ cache st' = cache st
    ∧ match run with
      | Ok p =>
          r = Ok tt
          ∧ (length p ≤ 101)%nat
          ∧ trace st' = main_banner :: trace st
                        ++ [EvPrint (Str.nl +:+ "Exploration path:");
                            EvPrint (Str.join " -> " p)]
          ∧ Str.startswith (Str.join " -> " p) "Pizza" = true
      | Raise e => r = Raise e ∧ trace st' = main_banner :: trace st
      | NoReturn => r = NoReturn ∧ trace st' = main_banner :: trace st
      end.
Proof.
  unfold main, start_page, target_page.
  destruct (explore_path fuel "Pizza" "Chocolate" 100 w) as [[p|e|] st] eqn:Hrun;
    intros [= <- <-]; eexists _, st; (split; [reflexivity|]); cbn [world cache trace];
    (split; [done|]); (split; [done|]); [|done..].
  split; [done|].
  pose proof (explore_loop_length _ _ _ _ _ _ _ _ Hrun) as Hlen. cbn in Hlen.
  destruct (explore_path_shape _ _ _ _ _ _ _ Hrun) as [[rest ->] _].
  split; [lia|]. split; [done|]. apply join_starts_with_first.
Qed.

End TitlesAndMain.

Section SleepsAndCalls.
Context {W : Type} {services : World W} {python : PyRuntime}.

Lemma placement_scan_app p t1 t2 :
  Placement.scan p (t1 ++ t2) =
  match Placement.scan p t1 with Some q => Placement.scan q t2 | None => None end.
Proof.
  revert p. induction t1 as [|e t IH]; intros p; simpl; [done|].
  destruct (Placement.step p e); [apply IH|done].
Qed.

Lemma placed_refl (st : run_state W) : Placement.placed st st.
Proof. exists []. by rewrite app_nil_r. Qed.

Lemma placed_trans (st1 st2 st3 : run_state W) :
  Placement.placed st1 st2 → Placement.placed st2 st3 → Placement.placed st1 st3.
Proof.
  intros (e1 & Ht1 & Hs1) (e2 & Ht2 & Hs2). exists (e1 ++ e2). split.
  - by rewrite Ht2, Ht1, app_assoc.
  - by rewrite placement_scan_app, Hs1.
Qed.

Lemma placed_printing line (st : run_state W) : Placement.placed st (printing line st).
Proof. by exists [EvPrint line]. Qed.

Lemma exchange_placed page_title params retry_count (st : run_state W) r st' :
  exchange page_title params retry_count st = (r, st') → Placement.placed st st'.
Proof.
  rewrite exchange_eq. destruct (sem_value st) as [|n] eqn:Hn.
  { intros [= <- <-]. apply placed_refl. }
  cbv zeta. intros Hrun.
  repeat case_match; simplify_eq;
    (eexists; split; [cbn [trace]; rewrite <- ?app_assoc; reflexivity | reflexivity]).
Qed.

Lemma retry_loop_placed steps page_title params retry_count (st : run_state W) r st' :
  retry_loop steps page_title params retry_count st = (r, st') → Placement.placed st st'.
Proof.
  revert retry_count st. induction steps as [|steps IH]; intros retry_count st;
    rewrite retry_loop_eq; destruct (retry_count <? MAX_RETRIES)%nat;
    try (intros [= <- <-]; apply placed_refl).
  unfold bind at 1.
  destruct (exchange page_title params retry_count st) as [[[data|rc]|e|] st1] eqn:Hex;
    apply exchange_placed in Hex.
  - by intros [= <- <-].
  - intros Hrec. apply IH in Hrec. by eapply placed_trans.
  - by intros [= <- <-].
  - by intros [= <- <-].
Qed.

Lemma paginate_placed fuel page_title links params (st : run_state W) r st' :
  paginate fuel page_title links params st = (r, st') → Placement.placed st st'.
Proof.
  revert links params st. induction fuel as [|fuel IH]; intros links params st.
  - intros [= <- <-]. apply placed_refl.
  - rewrite paginate_eq. unfold bind at 1.
    destruct (retry_loop MAX_RETRIES page_title params 0 st) as [[data|e|] st1] eqn:Hre;
      apply retry_loop_placed in Hre.
    + destruct (continue_params data).
      * intros Hrec. apply IH in Hrec. by eapply placed_trans.
      * by intros [= <- <-].
    + by intros [= <- <-].
    + by intros [= <- <-].
Qed.

Lemma get_links_from_page_placed fuel page_title (st : run_state W) r st' :
  get_links_from_page fuel page_title st = (r, st') → Placement.placed st st'.
Proof.
  destruct (cache st !! page_title) as [links|] eqn:Hc.
  - rewrite (get_links_from_page_hit _ _ _ _ Hc). intros [= <- <-]. apply placed_refl.
  - rewrite (get_links_from_page_miss _ _ _ Hc).
    destruct (paginate fuel page_title [] (initial_params page_title) st)
      as [[set|e|] st1] eqn:Hp; apply paginate_placed in Hp; by intros [= <- <-].
Qed.

Lemma choose_next_link_placed current target seen links (st : run_state W) r st' :
  choose_next_link current target seen links st = (r, st') → Placement.placed st st'.
Proof.
  rewrite choose_next_link_reply. cbv zeta.
  destruct (generate_content (world st) (build_prompt current target seen links))
    as [[e|e|s] w']; intros [= <- <-];
    (eexists; split; [cbn [trace]; rewrite <- ?app_assoc; reflexivity | reflexivity]).
Qed.

Lemma explore_iteration_placed fuel target iteration vars (st : run_state W) r st' :
  explore_iteration fuel target iteration vars st = (r, st') → Placement.placed st st'.
Proof.
  intros Hrun.
  destruct (decide (normalize (current_page vars) = normalize target)) as [Heq|Hne].
  { rewrite explore_iteration_target in Hrun by done. simplify_eq. apply placed_printing. }
  eapply placed_trans; [apply (placed_printing (pass_banner iteration vars))|].
  pose proof (explore_iteration_cases _ _ _ _ _ _ _ Hrun Hne) as Hc. cbv zeta in Hc.
  destruct (get_links_from_page fuel (current_page vars)
              (printing (pass_banner iteration vars) st))
    as [[[|first_link rest]|e|] st1] eqn:Hget;
    pose proof (get_links_from_page_placed _ _ _ _ _ Hget) as Hfetch.
  - destruct Hc as [_ ->]. eapply placed_trans; [done|apply placed_printing].
  - destruct (choose_next_link (current_page vars) target (visited vars)
                (first_link :: rest) st1) as [[answer|e|] st2] eqn:Hch;
      pose proof (choose_next_link_placed _ _ _ _ _ _ _ Hch) as Hasked.
    + rewrite (explore_iteration_move _ _ _ _ _ _ _ _ _ _ Hne Hget Hch) in Hrun.
      eapply placed_trans; [done|]. eapply placed_trans; [done|].
      destruct (decide (answer ∈ first_link :: rest)); simplify_eq.
      * apply placed_printing.
      * eapply placed_trans; [apply placed_printing|].
        eapply placed_trans; apply placed_printing.
    + destruct Hc as [_ ->]. by eapply placed_trans.
    + destruct Hc as [_ ->]. by eapply placed_trans.
  - by destruct Hc as [_ ->].
  - by destruct Hc as [_ ->].
Qed.

Lemma explore_loop_placed fuel target n iteration vars (st : run_state W) r st' :
  explore_loop fuel target n iteration vars st = (r, st') → Placement.placed st st'.
Proof.
  revert iteration vars st. induction n as [|n IH]; intros iteration vars st; simpl.
  - intros [= <- <-]. apply placed_printing.
  - unfold bind at 1.
    destruct (explore_iteration fuel target iteration vars st) as [[[p|vars']|e|] st1] eqn:Hit;
      apply explore_iteration_placed in Hit.
    + by intros [= <- <-].
    + intros Hrec. apply IH in Hrec. by eapply placed_trans.
    + by intros [= <- <-].
    + by intros [= <- <-].
Qed.

(** X14. In every run of [explore_path], whatever its outcome, the task
    sleeps out a backoff only inside the exchange that was throttled, with
    the permit of the semaphore still held and the response not yet left;
    and it calls the model, and sleeps after the call, only outside of any
    exchange, holding no permit. *)
Theorem backoff_sleeps_hold_the_permit fuel start target N (w : W) r st' :
  explore_path fuel start target N w = (r, st') →
  Placement.scan Trace.Idle (trace st') = Some Trace.Idle.
Proof.
  intros Hrun. unfold explore_path in Hrun.
  apply explore_loop_placed in Hrun as (evs & Ht & Hscan). by rewrite Ht.
Qed.

End SleepsAndCalls.

Section MoreSampleFetches.
Import Sample Cases.

(** The source answers the first request with status 503. *)
Lemma server_error_aborts_the_fetch :
  paginate 1 "Pizza" [] (initial_params "Pizza") (initial_state broken_world)
  = (Raise (ClientResponseError 503),
     {| world := {| replies := []; answers := [] |};
        trace := (trace (initial_state broken_world)
                  ++ flat_map (throttled_exchange "Pizza" (initial_params "Pizza")) (seq 1 0)
                  ++ [EvAcquire; EvRequest (initial_params "Pizza")])
                 ++ [EvResponse 503] ++ [EvExchangeEnd; EvRelease];
        sem_value := sem_value (initial_state broken_world);
        cache := cache (initial_state broken_world) |}).
Proof.
  refine (proj1 (proj2 (unusable_reply_aborts_the_fetch 0 "Pizza" [] (initial_params "Pizza")
                          (initial_state broken_world) 0 broken_world _ _ _))
            {| status := 503; json_body := None |} {| replies := []; answers := [] |}
            _ _ _).
  - simpl. lia.
  - unfold MAX_RETRIES. lia.
  - reflexivity.
  - reflexivity.
  - simpl. lia.
  - simpl. lia.
Defined.

(** The source answers with status 203 and the links. *)
Lemma status_203_is_read_as_success :
  get_links_from_page 1 "Pizza" (initial_state lenient_world)
  = (Ok ["Tomato"],
     {| world := {| replies := []; answers := [] |};
        trace := trace (initial_state lenient_world)
                 ++ [EvAcquire; EvRequest (initial_params "Pizza"); EvResponse 203;
                     EvExchangeEnd; EvRelease];
        sem_value := sem_value (initial_state lenient_world);
        cache := <["Pizza" := ["Tomato"]]> (cache (initial_state lenient_world)) |}).
Proof.
  refine (status_below_400_is_read_as_success 0 "Pizza" (initial_state lenient_world)
            {| status := 203;
               json_body := Some {| query_pages := [("1", Some ["Tomato"])];
                                    continue_params := None |} |}
            {| replies := []; answers := [] |}
            {| query_pages := [("1", Some ["Tomato"])]; continue_params := None |}
            _ _ _ _ _ _ _).
  - simpl. lia.
  - reflexivity.
  - reflexivity.
  - simpl. lia.
  - simpl. lia.
  - reflexivity.
  - reflexivity.
Defined.

(** Two pages, the first after two throttled replies, the second after one. *)
Lemma two_pages_are_merged :
  ∃ links evs,
    get_links_from_page 2 "Pizza" (initial_state two_page_world)
    = (Ok links, {| world := {| replies := []; answers := [] |};
                    trace := trace (initial_state two_page_world) ++ evs;
                    sem_value := sem_value (initial_state two_page_world);
                    cache := <["Pizza" := links]> (cache (initial_state two_page_world)) |})
    ∧ Trace.requests evs = served_requests [(2, first_page); (1, second_page)]
    ∧ Trace.sleeps evs = served_sleeps [(2, first_page); (1, second_page)]
    ∧ NoDup links
    ∧ ∀ link, link ∈ links
              ↔ denied link = false
                ∧ ∃ page, page ∈ [(2, first_page); (1, second_page)] ∧ listed link page.2.
Proof.
  refine (fetch_follows_continuations 2 "Pizza" (initial_state two_page_world)
            [(2, first_page); (1, second_page)] {| replies := []; answers := [] |}
            _ _ _ _).
  - simpl. lia.
  - reflexivity.
  - cbn [serves fst snd]. split; [unfold MAX_RETRIES; lia|].
    eexists. split.
    { eexists _, _. split; [vm_compute; reflexivity|].
      split; [vm_compute; reflexivity|]. split; reflexivity. }
    cbn [continue_params first_page]. split; [unfold MAX_RETRIES; lia|].
    eexists. split.
    { eexists _, _. split; [vm_compute; reflexivity|].
      split; [vm_compute; reflexivity|]. split; reflexivity. }
    cbn [continue_params second_page]. split; reflexivity.
  - simpl. lia.
Defined.

(** The list fetched for "Pizza" in [pizza_world]. *)
Lemma pizza_links_are_distinct :
  NoDup ["Portal:Food"; "Tomato"; "Talk:Pizza"]
  ∧ ∀ k v, cache pizza_fetched !! k = Some v → NoDup v.
Proof.
  refine (fetched_links_are_distinct 3 "Pizza" (initial_state pizza_world)
            ["Portal:Food"; "Tomato"; "Talk:Pizza"] pizza_fetched _ _).
  - vm_compute. reflexivity.
  - intros k v Hk. unfold initial_state in Hk. cbn [cache] in Hk.
    by rewrite lookup_empty in Hk.
Defined.

(** Six throttled replies are on offer; five requests are sent. *)
Lemma throttled_page_takes_five_requests :
  ∃ evs, trace gave_up = trace (initial_state (throttled_world 6)) ++ evs
         ∧ (Trace.requests evs ≤ 5)%nat
         ∧ (sum_list (Trace.sleeps evs) ≤ 62)%nat
         ∧ Forall (fun e => match e with
                            | EvRequest q => q = initial_params "Pizza"
                            | _ => True
                            end) evs.
Proof.
  refine (a_page_takes_at_most_five_requests "Pizza" (initial_params "Pizza")
            (initial_state (throttled_world 6)) (Raise (MaxRetriesExceeded "Pizza"))
            gave_up _).
  vm_compute. reflexivity.
Defined.

(** The first pass of the walk from "Pizza": the model answers "Cocoa". *)
Lemma cocoa_is_followed :
  explore_iteration 3 "Chocolate" 0 pizza_vars (initial_state walk_world)
  = (Ok (Next {| current_page := str_strip "Cocoa";
                 path := path pizza_vars ++ [str_strip "Cocoa"];
                 visited := visited pizza_vars ++ [str_strip "Cocoa"] |}),
     {| world := {| replies := [page_reply ["Chocolate"; "Bean"]];
                    answers := [Text " Chocolate"] |};
        trace := trace walk_fetched ++
          [EvPrint (Str.nl +:+ "--- Prompting Gemini ---");
           EvPrint (build_prompt (current_page pizza_vars) "Chocolate"
                      (visited pizza_vars) ["Cocoa"; "Tomato"]);
           EvGenerate (build_prompt (current_page pizza_vars) "Chocolate"
                         (visited pizza_vars) ["Cocoa"; "Tomato"]);
           EvTimeSleep 2;
           EvPrint ("Gemini response: " +:+ str_strip "Cocoa");
           EvPrint ("Moving to: " +:+ str_strip "Cocoa")];
        sem_value := sem_value walk_fetched; cache := cache walk_fetched |}).
Proof.
  refine (accepted_answer_is_followed 3 "Chocolate" 0 pizza_vars (initial_state walk_world)
            walk_fetched ["Cocoa"; "Tomato"] "Cocoa"
            {| replies := [page_reply ["Chocolate"; "Bean"]];
               answers := [Text " Chocolate"] |} _ _ _ _).
  - vm_compute. discriminate.
  - vm_compute. reflexivity.
  - vm_compute. reflexivity.
  - refine (bool_decide_unpack _ _). vm_compute. exact I.
Defined.

(** The model cannot be reached: the run ends in the first pass. *)
Lemma unreachable_model_ends_the_run :
  explore_loop 3 "Chocolate" (S 4) 0 pizza_vars (initial_state mute_world)
  = (Raise (GenerationError "unreachable"),
     {| world := {| replies := []; answers := [] |};
        trace := trace mute_fetched ++
          [EvPrint (Str.nl +:+ "--- Prompting Gemini ---");
           EvPrint (build_prompt (current_page pizza_vars) "Chocolate"
                      (visited pizza_vars) ["Cheese"; "Tomato"]);
           EvGenerate (build_prompt (current_page pizza_vars) "Chocolate"
                         (visited pizza_vars) ["Cheese"; "Tomato"])];
        sem_value := sem_value mute_fetched; cache := cache mute_fetched |}).
Proof.
  refine (proj1 (proj2 (exceptions_end_the_run 3 "Chocolate" 0 pizza_vars
                          (initial_state mute_world) 4 _)
                   ["Cheese"; "Tomato"] mute_fetched _ _)
            (GenerationError "unreachable") {| replies := []; answers := [] |} _).
  - vm_compute. discriminate.
  - vm_compute. reflexivity.
  - discriminate.
  - vm_compute. reflexivity.
Defined.

(** "Tomato" has no colon. *)
Lemma tomato_is_kept :
  denied "Tomato" = false
  ∧ ∃ links, remove_denied ["Help:Contents"; "Tomato"] ["Help:Contents"; "Tomato"]
             = Some links ∧ "Tomato" ∈ links.
Proof.
  refine (titles_without_colon_are_kept ["Help:Contents"; "Tomato"] "Tomato" _ _).
  - refine (bool_decide_unpack _ _). vm_compute. exact I.
  - reflexivity.
Defined.

(** [main] in the world of the walk "Pizza", "Cocoa", "Chocolate". *)
Lemma main_prints_the_walk :
  ∃ run st,
    explore_path 3 "Pizza" "Chocolate" 100 walk_world = (run, st)
    ∧ world main_final = world st ∧ cache main_final = cache st
    ∧ match run with
      | Ok p =>
          Ok tt = Ok tt
          ∧ (length p ≤ 101)%nat
          ∧ trace main_final = main_banner :: trace st
                               ++ [EvPrint (Str.nl +:+ "Exploration path:");
                                   EvPrint (Str.join " -> " p)]
          ∧ Str.startswith (Str.join " -> " p) "Pizza" = true
      | Raise e => Ok tt = Raise e ∧ trace main_final = main_banner :: trace st
      | NoReturn => Ok tt = NoReturn ∧ trace main_final = main_banner :: trace st
      end.
Proof.
  refine (main_prints_the_path 3 walk_world (Ok tt) main_final _).
  vm_compute. reflexivity.
Defined.

(** The run of [pizza_world]: a throttled attempt with its sleep, and a
    call of the model. *)
Lemma pizza_run_sleeps_under_the_permit :
  Placement.scan Trace.Idle (trace pizza_final) = Some Trace.Idle.
Proof.
  refine (backoff_sleeps_hold_the_permit 3 "Pizza" "Chocolate" 4 pizza_world
            (Ok ["Pizza"; "Tomato"]) pizza_final _).
  vm_compute. reflexivity.
Defined.

End MoreSampleFetches.
